(** * The leaderboard route: [src/app/api/leaderboard/route.ts]

    A shallow embedding of the [GET] handler and of the callbacks it passes
    to [map] and [sort], together with the properties the design document
    states about them.

    Conventions of the model.
    - A JavaScript string is a Rocq [string]; each character stands for the
      UTF-16 code unit of the same number, so the model covers the strings
      whose code units lie in U+0000..U+00FF.
    - A JavaScript number that holds an integer is a [Z]; [NaN], the other
      value [parseInt] produces here, has a constructor of its own, and the
      quotient [total / maxCourses] is computed in [Q]. The model is exact
      for the numbers a double holds exactly (magnitudes up to 2^53); digit
      strings beyond that are outside it.
    - A row produced by csv-parser is an object from column labels to cell
      strings: a [gmap string string]; a missing property is [None].
    - [String.prototype.localeCompare] depends on the host's collation and
      is a parameter of the development. *)

From Stdlib Require Import ZArith QArith Qround Ascii String List Sorted Permutation Lia.
From Stdlib Require Import DecimalString.
From Stdlib Require DecimalPos.
From stdpp Require Import base decidable option list strings gmap.

Local Open Scope string_scope.
Local Open Scope Z_scope.

(** ** Strings *)

Module JsString.

(** WhiteSpace and LineTerminator code units below U+0100: TAB, LF, VT,
    FF, CR, SP and NBSP. *)
Definition isWhiteSpace (c : ascii) : bool :=
  let n := N_of_ascii c in
  ((n =? 9) || (n =? 10) || (n =? 11) || (n =? 12) || (n =? 13)
   || (n =? 32) || (n =? 160))%N.

Fixpoint trimStart (s : string) : string :=
  match s with
  | String c r => if isWhiteSpace c then trimStart r else s
  | EmptyString => EmptyString
  end.

(** [trimEnd] drops the trailing white space: a character is dropped when
    it is white space and nothing but white space follows it. *)
Fixpoint trimEnd (s : string) : string :=
  match s with
  | String c r =>
      match trimEnd r with
      | EmptyString => if isWhiteSpace c then EmptyString else String c EmptyString
      | r' => String c r'
      end
  | EmptyString => EmptyString
  end.

Definition trim (s : string) : string := trimEnd (trimStart s).

(** Lower-casing of one code unit below U+0100: A-Z, and the Latin-1
    capitals U+00C0..U+00DE without the multiplication sign U+00D7. *)
Definition lowerChar (c : ascii) : ascii :=
  let n := N_of_ascii c in
  if (((65 <=? n) && (n <=? 90))
      || ((192 <=? n) && (n <=? 222) && negb (n =? 215)))%N
  then ascii_of_N (n + 32) else c.

Fixpoint toLowerCase (s : string) : string :=
  match s with
  | String c r => String (lowerChar c) (toLowerCase r)
  | EmptyString => EmptyString
  end.

Definition isDigit (c : ascii) : bool :=
  let n := N_of_ascii c in ((48 <=? n) && (n <=? 57))%N.

Definition digitValue (c : ascii) : Z := Z.of_N (N_of_ascii c) - 48.

(** [str || dflt] on an optional string: [undefined] and the empty string
    are the falsy ones. *)
Definition orElse (o : option string) (dflt : string) : string :=
  match o with
  | Some EmptyString | None => dflt
  | Some s => s
  end.

(** Template-literal conversion of an integer number. *)
Definition ofNumber (n : Z) : string := NilZero.string_of_int (Z.to_int n).

End JsString.

(** ** Numbers *)

Module JsNumber.

Inductive Number := NaN | Num (n : Z).

(** [v || 0]: [NaN] and zero are falsy. *)
Definition orZero (v : Number) : Z :=
  match v with
  | NaN => 0
  | Num n => if n =? 0 then 0 else n
  end.

(** The longest prefix of decimal digits, read as a number, most
    significant digit first; [acc] is the value of the digits read so
    far and [seen] tells whether there was one. *)
Fixpoint readDigits (s : string) (seen : bool) (acc : Z) : Number :=
  match s with
  | String c r =>
      if JsString.isDigit c
      then readDigits r true (10 * acc + JsString.digitValue c)
      else if seen then Num acc else NaN
  | EmptyString => if seen then Num acc else NaN
  end.

Definition negate (v : Number) : Number :=
  match v with NaN => NaN | Num n => Num (- n) end.

(** [parseInt(v, 10)]: [ToString] of the argument ([undefined] becomes the
    word "undefined"), leading white space skipped, one optional sign,
    then the longest run of digits; [NaN] when that run is empty. *)
Definition parseInt (v : option string) : Number :=
  let inputString := match v with Some s => s | None => "undefined" end in
  match JsString.trimStart inputString with
  | String "-" r => negate (readDigits r false 0)
  | String "+" r => readDigits r false 0
  | s => readDigits s false 0
  end.

(** [Math.round]: the integer nearest to [x], ties towards +infinity. *)
Definition round (x : Q) : Z := Qfloor (x + (1 # 2)).

Definition min (a b : Z) : Z := if a <=? b then a else b.

End JsNumber.

(** ** Rows and entries *)

Abbreviation Row := (gmap string string).

Record LeaderboardEntry := mkEntry {
  name : string;
  redemptionStatus : bool;
  skillBadges : Z;
  arcadePoints : Z;
  progress : Z;
  skillBadgesStr : string;
  arcadePointsStr : string;
  rank : option Z            (* [rank?: number], absent until ranking *)
}.

(** The column labels the handler reads. *)
Definition badgesLabel : string := "# of Skill Badges Completed".
Definition arcadeLabel : string := "# of Arcade Games Completed".
Definition statusLabel : string := "Access Code Redemption Status".
Definition nameLabel : string := "User Name".

Definition maxCourses : Z := 20.

(** [item['Access Code Redemption Status']?.trim().toLowerCase() === "yes"] *)
Definition isRedeemed (status : option string) : bool :=
  match status with
  | Some s => bool_decide (JsString.toLowerCase (JsString.trim s) = "yes")
  | None => false
  end.

(** [Math.min(Math.round((total / maxCourses) * 100), 100)] *)
Definition progressOf (total : Z) : Z :=
  let progress := JsNumber.round ((inject_Z total / inject_Z maxCourses) * 100)%Q in
  JsNumber.min progress 100.

(** The callback of [results.map]. *)
Definition processItem (item : Row) : LeaderboardEntry :=
  let skillBadges :=
    JsNumber.orZero (JsNumber.parseInt (item !! "# of Skill Badges Completed")) in
  let arcadePoints :=
    JsNumber.orZero (JsNumber.parseInt (item !! "# of Arcade Games Completed")) in
  let redemptionStatus := isRedeemed (item !! "Access Code Redemption Status") in
  let total := skillBadges + arcadePoints in
  {| name := JsString.orElse (item !! "User Name") "Unknown Name";
     redemptionStatus := redemptionStatus;
     skillBadges := skillBadges;
     arcadePoints := arcadePoints;
     progress := progressOf total;
     skillBadgesStr := JsString.ofNumber skillBadges +:+ "/19";
     arcadePointsStr := JsString.ofNumber arcadePoints +:+ "/1";
     rank := None |}.

(** [if (results.length > 0 && results[0]['User Name'] === 'User Name')
    results.shift()] *)
Definition removeHeaderRow (results : list Row) : list Row :=
  match results with
  | first :: rest =>
      if bool_decide (first !! "User Name" = Some "User Name") then rest else results
  | [] => []
  end.

(** ** Arrays *)

Module JsArray.

Section Sort.
Context {A : Type} (comparefn : A -> A -> Z).

(** [x] goes in front of the first element it does not have to follow:
    it passes the elements [y] with [comparefn x y > 0] only. *)
Fixpoint insert (x : A) (l : list A) : list A :=
  match l with
  | y :: ys => if comparefn x y <=? 0 then x :: y :: ys else y :: insert x ys
  | [] => [x]
  end.

(** [Array.prototype.sort(comparefn)]. ECMAScript leaves the algorithm
    to the engine and fixes its result for a consistent comparator: a
    permutation of the array, ordered by [comparefn], that keeps
    elements comparing equal in their original order. The model is the
    insertion sort that builds this array from its right end. *)
Definition sort (l : list A) : list A := foldr insert [] l.
End Sort.

(** [Array.prototype.map] with a callback that takes the index too. *)
Definition mapi {A B : Type} (f : A -> nat -> B) (l : list A) : list B :=
  imap (fun index x => f x index) l.

End JsArray.

(** ** JSON values and responses *)

#[warnings="-register-all"]
Inductive Json :=
| JNull
| JBool (b : bool)
| JNumber (n : Z)
| JString (s : string)
| JArray (items : list Json)
| JObject (fields : list (string * Json)).

Definition keys (j : Json) : list string :=
  match j with
  | JObject fields => map fst fields
  | _ => []
  end.

Definition field (k : string) (j : Json) : option Json :=
  match j with
  | JObject fields => snd <$> List.find (fun kv => bool_decide (fst kv = k)) fields
  | _ => None
  end.

Record Response := mkResponse {
  status : Z;
  headers : list (string * string);
  body : Json
}.

Definition corsHeaders : list (string * string) :=
  [("Access-Control-Allow-Origin", "*");
   ("Access-Control-Allow-Methods", "GET, OPTIONS");
   ("Access-Control-Allow-Headers", "Content-Type")].

(** An entry as [JSON.stringify] writes it: own properties in creation
    order, an absent [rank] left out. *)
Definition entryToJson (e : LeaderboardEntry) : Json :=
  JObject ([("name", JString (name e));
            ("redemptionStatus", JBool (redemptionStatus e));
            ("skillBadges", JNumber (skillBadges e));
            ("arcadePoints", JNumber (arcadePoints e));
            ("progress", JNumber (progress e));
            ("skillBadgesStr", JString (skillBadgesStr e));
            ("arcadePointsStr", JString (arcadePointsStr e))]
           ++ match rank e with
              | Some r => [("rank", JNumber r)]
              | None => []
              end).

(** ** The environment of a request *)

Record Error := mkError { message : string }.

(** The two streams of [fs.createReadStream(filePath).pipe(csv())]. *)
Inductive Emitter := ReadStream | CsvStream.

#[global] Instance Emitter_eq_dec : EqDecision Emitter.
Proof. solve_decision. Defined.

(** What the piped streams do once the file is opened: the parser emits
    the rows and ends, or the parser emits an error, or the file stream
    emits one (the path is a directory, the file cannot be read). *)
Inductive StreamOutcome :=
| Ended (rows : list Row)
| ErrorOn (src : Emitter) (e : Error).

Record FileSystem := mkFileSystem {
  filePath : string;                 (* [path.join(process.cwd(), 'abc.csv')] *)
  existsSync : bool;                 (* [fs.existsSync(filePath)] *)
  stream : StreamOutcome;            (* the run of the piped streams *)
  statSync : Error + string          (* [fs.statSync(filePath).mtime.toISOString()] *)
}.

(** How a piece of the handler completes: with a value, with an exception
    on its way to the enclosing [catch], or not at all, the awaited promise
    staying pending after an error nobody listened to. *)
Inductive Completion (A : Type) :=
| Normal (a : A)
| Throw (e : Error)
| Pending (unhandled : Error).
Arguments Normal {A} a.
Arguments Throw {A} e.
Arguments Pending {A} unhandled.

Definition bind {A B : Type} (c : Completion A) (k : A -> Completion B) : Completion B :=
  match c with
  | Normal a => k a
  | Throw e => Throw e
  | Pending e => Pending e
  end.

Notation "'let!' x ':=' c 'in' k" := (bind c (fun x => k))
  (at level 10, x name, c at level 100, k at level 200).

Definition tryCatch {A : Type} (c : Completion A) (handler : Error -> Completion A) : Completion A :=
  match c with
  | Throw e => handler e
  | _ => c
  end.

(** [src.pipe(dst)] returns [dst], so the chained [.on(...)] calls register
    on the destination. *)
Definition pipe (src dst : Emitter) : Emitter := dst.

Definition listenedEmitter : Emitter := pipe ReadStream CsvStream.

(** The promise of the [try] block. An ['error'] event reaches [reject]
    where the listener was registered; emitted on a stream without an
    ['error'] listener it is thrown from the event loop, outside the
    handler, and neither [resolve] nor [reject] is ever called. *)
Definition readRows (fs : FileSystem) : Completion (list Row) :=
  if negb (existsSync fs)
  then Throw (mkError ("CSV file not found at path: " +:+ filePath fs))
  else match stream fs with
       | Ended rows => Normal rows
       | ErrorOn src e =>
           if bool_decide (src = listenedEmitter) then Throw e else Pending e
       end.

Definition stat (fs : FileSystem) : Completion string :=
  match statSync fs with
  | inl e => Throw e
  | inr mtime => Normal mtime
  end.

(** ** The handler *)

Section Handler.

Variable localeCompare : string -> string -> Z.

(** The callback of [processedData.sort]. *)
Definition compareEntries (a b : LeaderboardEntry) : Z :=
  if negb (eqb (redemptionStatus a) (redemptionStatus b))
  then (if redemptionStatus a then -1 else 1)
  else if negb (skillBadges b =? skillBadges a)
  then skillBadges b - skillBadges a
  else if negb (arcadePoints b =? arcadePoints a)
  then arcadePoints b - arcadePoints a
  else localeCompare (JsString.orElse (Some (name a)) "")
                     (JsString.orElse (Some (name b)) "").

(** The callback of [processedData.map]: [{...student, rank: index + 1}]. *)
Definition addRank (student : LeaderboardEntry) (index : nat) : LeaderboardEntry :=
  {| name := name student;
     redemptionStatus := redemptionStatus student;
     skillBadges := skillBadges student;
     arcadePoints := arcadePoints student;
     progress := progress student;
     skillBadgesStr := skillBadgesStr student;
     arcadePointsStr := arcadePointsStr student;
     rank := Some (Z.of_nat index + 1) |}.

Definition processedData (results : list Row) : list LeaderboardEntry :=
  map processItem (removeHeaderRow results).

Definition sortedData (results : list Row) : list LeaderboardEntry :=
  JsArray.sort compareEntries (processedData results).

Definition rankedData (results : list Row) : list LeaderboardEntry :=
  JsArray.mapi addRank (sortedData results).

Definition successResponse (updatedAt : string) (data : list LeaderboardEntry) : Response :=
  mkResponse 200 corsHeaders
    (JObject [("success", JBool true);
              ("message", JString "Leaderboard data fetched successfully.");
              ("updatedAt", JString updatedAt);
              ("data", JArray (map entryToJson data))]).

Definition errorResponse (error : Error) : Response :=
  mkResponse 500 corsHeaders
    (JObject [("success", JBool false);
              ("message", JString "Error reading leaderboard data.");
              ("error", JString (message error))]).

Definition GET (fs : FileSystem) : Completion Response :=
  tryCatch
    (let! results := readRows fs in
     let rankedData := rankedData results in
     let! updatedAt := stat fs in
     Normal (successResponse updatedAt rankedData))
    (fun error => Normal (errorResponse error)).

End Handler.

Definition OPTIONS : Response := mkResponse 204 corsHeaders JNull.

(** ** The contract of a comparator *)

(** ECMAScript's consistent comparison function: the sign of [cmp a b]
    splits the values into classes that are totally ordered. The language
    requires it of [localeCompare] on all strings, whatever the locale, and
    fixes the result of [sort] for the comparators that meet it. *)
Record Consistent {A : Type} (cmp : A -> A -> Z) : Prop := {
  cmp_refl : forall a, cmp a a = 0;
  cmp_sym : forall a b, cmp a b = 0 -> cmp b a = 0;
  cmp_eq_trans : forall a b c, cmp a b = 0 -> cmp b c = 0 -> cmp a c = 0;
  cmp_lt_trans : forall a b c, cmp a b < 0 -> cmp b c < 0 -> cmp a c < 0;
  cmp_gt_trans : forall a b c, cmp a b > 0 -> cmp b c > 0 -> cmp a c > 0
}.

(** [a] may stand before [b]. *)
Definition before {A : Type} (cmp : A -> A -> Z) (a b : A) : Prop := cmp a b <= 0.

(** [y] is in the class of [x]. *)
Definition tied {A : Type} (cmp : A -> A -> Z) (x y : A) : bool := cmp x y =? 0.

(** ** Notions of the design document *)

(** The design document's formula in its own words: [round] is the nearest
    integer, a half going away from zero, and the cap comes first. *)
Definition nearestInteger (x : Q) : Z :=
  if Qle_bool 0 x then Qfloor (x + (1 # 2)) else Qceiling (x - (1 # 2)).

Definition specProgress (skillBadges arcadePoints : Z) : Z :=
  Z.min 100 (nearestInteger (inject_Z (skillBadges + arcadePoints) / 20 * 100)).

(** The first non-blank character of a present field is not a minus sign. *)
Definition unsigned (v : option string) : Prop :=
  match JsString.trimStart <$> v with
  | Some (String "-" _) => False
  | _ => True
  end.

(** A row repeats the header labels when each of its cells holds the label
    of its own column: what parsing a second copy of the header line
    gives. *)
Definition repeatsHeaderLabels (r : Row) : Prop :=
  map_Forall (fun label cell => cell = label) r.

(** An entry without its rank. *)
Definition unranked (e : LeaderboardEntry) : LeaderboardEntry :=
  {| name := name e;
     redemptionStatus := redemptionStatus e;
     skillBadges := skillBadges e;
     arcadePoints := arcadePoints e;
     progress := progress e;
     skillBadgesStr := skillBadgesStr e;
     arcadePointsStr := arcadePointsStr e;
     rank := None |}.

(** Dense ranking of an ordered list: the first entry has rank 1, an entry
    that ties with its predecessor shares its rank, any other entry takes
    the next rank. *)
Fixpoint denseRanksFrom {A : Type} (cmp : A -> A -> Z) (prev : A) (r : Z)
    (l : list A) : list Z :=
  match l with
  | x :: xs =>
      let r' := if cmp prev x =? 0 then r else r + 1 in
      r' :: denseRanksFrom cmp x r' xs
  | [] => []
  end.

Definition denseRanks {A : Type} (cmp : A -> A -> Z) (l : list A) : list Z :=
  match l with
  | x :: xs => 1 :: denseRanksFrom cmp x 1 xs
  | [] => []
  end.

(** The ranks 1, 2, ..., n in order. *)
Definition positions (n : nat) : list Z := map (fun i => Z.of_nat i + 1) (seq 0 n).

Fixpoint noTieFrom {A : Type} (cmp : A -> A -> Z) (prev : A) (l : list A) : Prop :=
  match l with
  | x :: xs => cmp prev x <> 0 /\ noTieFrom cmp x xs
  | [] => True
  end.

(** No entry ties with the one before it. *)
Definition noNeighbourTies {A : Type} (cmp : A -> A -> Z) (l : list A) : Prop :=
  match l with
  | x :: xs => noTieFrom cmp x xs
  | [] => True
  end.

(** ** Sample data *)

(** A collation to run the handler with: strings ordered by code unit. *)
Fixpoint codeUnitCompare (a b : string) : Z :=
  match a, b with
  | EmptyString, EmptyString => 0
  | EmptyString, String _ _ => -1
  | String _ _, EmptyString => 1
  | String x a', String y b' =>
      match (N_of_ascii x ?= N_of_ascii y)%N with
      | Eq => codeUnitCompare a' b'
      | Lt => -1
      | Gt => 1
      end
  end.

(** A collation that ignores case. *)
Definition caseInsensitiveCompare (a b : string) : Z :=
  codeUnitCompare (JsString.toLowerCase a) (JsString.toLowerCase b).

Definition row (cells : list (string * string)) : Row := list_to_map cells.

Definition sampleRow : Row :=
  row [("User Name", "Asha"); ("Access Code Redemption Status", " YES ");
       ("# of Skill Badges Completed", "7"); ("# of Arcade Games Completed", "1")].

Definition participant (who status badges games : string) : Row :=
  row [(nameLabel, who); (statusLabel, status);
       (badgesLabel, badges); (arcadeLabel, games)].

Definition headerCopy : Row :=
  row [(nameLabel, nameLabel); (statusLabel, statusLabel);
       (badgesLabel, badgesLabel); (arcadeLabel, arcadeLabel)].

(** A participant who registered under the name "User Name". *)
Definition namesakeRow : Row :=
  row [(nameLabel, "User Name"); (statusLabel, "Yes");
       (badgesLabel, "12"); (arcadeLabel, "1")].

Definition sampleResults : list Row :=
  [headerCopy;
   participant "Bala" "No" "9" "1";
   participant "Chen" "Yes" "7" "0";
   participant "asha" "Yes" "7" "1";
   participant "Dev" "yes" "12" "0";
   participant "Asha" "Yes" "7" "1"].

Definition negativeRow : Row := row [(nameLabel, "Ravi"); (badgesLabel, "-5")].

Definition sampleFs : FileSystem :=
  mkFileSystem "/app/abc.csv" true (Ended [headerCopy; sampleRow])
    (inr "2024-05-01T10:00:00.000Z").

(** The file is missing. *)
Definition missingFs : FileSystem :=
  mkFileSystem "/app/abc.csv" false (Ended []) (inl (mkError "ENOENT")).

(** The path exists and cannot be read as a file: it is a directory. *)
Definition directoryFs : FileSystem :=
  mkFileSystem "/app/abc.csv" true
    (ErrorOn ReadStream (mkError "EISDIR: illegal operation on a directory, read"))
    (inr "2024-05-01T10:00:00.000Z").

Definition payloadKeys : list string := ["success"; "message"; "updatedAt"; "data"].

Definition entryKeys : list string :=
  ["name"; "redemptionStatus"; "skillBadges"; "arcadePoints"; "progress";
   "skillBadgesStr"; "arcadePointsStr"; "rank"].

(** ** Notions used to state further properties *)

(** A field reads as a number: it is present and, after leading white
    space and one optional sign, shows a digit. *)
Definition startsNumber (v : option string) : bool :=
  match JsString.trimStart <$> v with
  | Some (String c r) =>
      if (Ascii.eqb c "-" || Ascii.eqb c "+")%bool
      then match r with
           | String d _ => JsString.isDigit d
           | EmptyString => false
           end
      else JsString.isDigit c
  | _ => false
  end.

(** No two entries of the list tie. *)
Fixpoint noTwoTie {A : Type} (cmp : A -> A -> Z) (l : list A) : Prop :=
  match l with
  | a :: l' => Forall (fun b => cmp a b <> 0) l' /\ noTwoTie cmp l'
  | [] => True
  end.

(** The columns [processItem] reads. *)
Definition readColumns : list string := [nameLabel; statusLabel; badgesLabel; arcadeLabel].

(** The spellings of "yes". *)
Definition yesSpellings : list string :=
  ["yes"; "yeS"; "yEs"; "yES"; "Yes"; "YeS"; "YEs"; "YES"].

Definition blank (s : string) : Prop :=
  Forall (fun c => JsString.isWhiteSpace c = true) (list_ascii_of_string s).

(** The design document's reading of the status field. "Trimmed": [t] is
    what is left of [s] once the white space at its two ends is taken
    away, so [t] itself neither starts nor ends with white space. *)
Definition edgesNotBlank (t : string) : Prop :=
  forall c,
    head (list_ascii_of_string t) = Some c \/ last (list_ascii_of_string t) = Some c ->
    JsString.isWhiteSpace c = false.

Definition trimmedForm (s t : string) : Prop :=
  exists before after,
    s = before +:+ t +:+ after /\ blank before /\ blank after /\ edgesNotBlank t.

(** "Case-insensitive": two strings are the same once the letters a-z are
    written as capitals. *)
Definition capital (c : ascii) : ascii :=
  let n := N_of_ascii c in
  if ((97 <=? n) && (n <=? 122))%N then ascii_of_N (n - 32) else c.

Fixpoint capitals (s : string) : string :=
  match s with
  | String c r => String (capital c) (capitals r)
  | EmptyString => EmptyString
  end.

Definition sameIgnoringCase (t u : string) : Prop := capitals t = capitals u.

(** Rows that stand in leaderboard order already. *)
Definition orderedResults : list Row :=
  [headerCopy;
   participant "Dev" "yes" "12" "0";
   participant "asha" "Yes" "7" "1";
   participant "Chen" "Yes" "7" "0";
   participant "Bala" "No" "9" "1"].

(** * Properties *)

Example processItem_sample :
  processItem sampleRow = mkEntry "Asha" true 7 1 40 "7/19" "1/1" None.
Proof. vm_compute. reflexivity. Qed.

(** ** Facts about strings and numbers *)

Section StringFacts.

Import JsString.

Lemma append_String (c : ascii) (s t : string) :
  String c s +:+ t = String c (s +:+ t).
Proof. reflexivity. Qed.

Lemma orElse_Some_empty (s : string) : orElse (Some s) "" = s.
Proof. destruct s; reflexivity. Qed.

Lemma orElse_present (s dflt : string) : s <> "" -> orElse (Some s) dflt = s.
Proof. destruct s; [congruence | reflexivity]. Qed.

Lemma isDigit_digitValue (c : ascii) :
  isDigit c = true -> 0 <= digitValue c <= 9.
Proof.
  unfold isDigit, digitValue. intros H.
  apply andb_true_iff in H as [H1 H2].
  apply N.leb_le in H1, H2. lia.
Qed.

Lemma lowerChar_y (c : ascii) :
  lowerChar c = "y"%char -> c = "y"%char \/ c = "Y"%char.
Proof.
  destruct c as [[] [] [] [] [] [] [] []]; vm_compute; intros H;
    first [ discriminate H | left; reflexivity | right; reflexivity ].
Qed.

Lemma lowerChar_e (c : ascii) :
  lowerChar c = "e"%char -> c = "e"%char \/ c = "E"%char.
Proof.
  destruct c as [[] [] [] [] [] [] [] []]; vm_compute; intros H;
    first [ discriminate H | left; reflexivity | right; reflexivity ].
Qed.

Lemma lowerChar_s (c : ascii) :
  lowerChar c = "s"%char -> c = "s"%char \/ c = "S"%char.
Proof.
  destruct c as [[] [] [] [] [] [] [] []]; vm_compute; intros H;
    first [ discriminate H | left; reflexivity | right; reflexivity ].
Qed.

(** The strings that lower-case to "yes" are its eight spellings. *)
Lemma toLowerCase_yes (s : string) :
  toLowerCase s = "yes" <->
  s ∈ ["yes"; "yeS"; "yEs"; "yES"; "Yes"; "YeS"; "YEs"; "YES"].
Proof.
  split.
  - destruct s as [|c1 [|c2 [|c3 [|c4 r]]]]; simpl; try discriminate.
    intros H. injection H as H1 H2 H3.
    apply lowerChar_y in H1. apply lowerChar_e in H2. apply lowerChar_s in H3.
    destruct H1, H2, H3; subst; set_solver.
  - intros H. repeat (apply elem_of_cons in H as [-> | H]; [reflexivity |]).
    by apply elem_of_nil in H.
Qed.

Lemma trimStart_not_space (s : string) :
  match trimStart s with
  | String c _ => isWhiteSpace c = false
  | EmptyString => True
  end.
Proof.
  induction s as [|c r IH]; simpl; [exact I |].
  destruct (isWhiteSpace c) eqn:E; [exact IH | exact E].
Qed.

(** [trimStart] strips a prefix of white space and nothing else. *)
Lemma trimStart_spec (s : string) :
  exists blank, s = blank +:+ trimStart s
                /\ Forall (fun c => isWhiteSpace c = true) (list_ascii_of_string blank).
Proof.
  induction s as [|c r (blank & Heq & Hall)]; simpl.
  - exists ""; split; [reflexivity | constructor].
  - destruct (isWhiteSpace c) eqn:E.
    + exists (String c blank); split; [rewrite append_String; f_equal; exact Heq | by constructor].
    + exists ""; split; [reflexivity | constructor].
Qed.

(** [trimEnd] strips a suffix of white space and nothing else. *)
Lemma trimEnd_spec (s : string) :
  exists blank, s = trimEnd s +:+ blank
                /\ Forall (fun c => isWhiteSpace c = true) (list_ascii_of_string blank).
Proof.
  induction s as [|c r (blank & Heq & Hall)]; simpl.
  - exists ""; split; [reflexivity | constructor].
  - destruct (trimEnd r) as [|c' r'] eqn:E.
    + simpl in Heq. subst r. destruct (isWhiteSpace c) eqn:Ec.
      * exists (String c blank); split; [reflexivity | by constructor].
      * exists blank; split; [reflexivity | assumption].
    + exists blank; split; [rewrite append_String; f_equal; exact Heq | assumption].
Qed.

Lemma append_empty (t : string) : "" +:+ t = t.
Proof. reflexivity. Qed.

Lemma trimStart_blank_app (blank t : string) :
  Forall (fun c => isWhiteSpace c = true) (list_ascii_of_string blank) ->
  trimStart (blank +:+ t) = trimStart t.
Proof.
  induction blank as [|c r IH]; simpl; intros H; [reflexivity |].
  apply Forall_cons in H as [Hc Hr].
  rewrite ?append_String. simpl. rewrite Hc. by apply IH.
Qed.

Lemma trimEnd_blank (blank : string) :
  Forall (fun c => isWhiteSpace c = true) (list_ascii_of_string blank) ->
  trimEnd blank = "".
Proof.
  induction blank as [|c r IH]; simpl; intros H; [reflexivity |].
  apply Forall_cons in H as [Hc Hr]. rewrite (IH Hr), Hc. reflexivity.
Qed.

Lemma trimEnd_app_blank (s blank : string) :
  Forall (fun c => isWhiteSpace c = true) (list_ascii_of_string blank) ->
  trimEnd (s +:+ blank) = trimEnd s.
Proof.
  intros H. induction s as [|c r IH].
  - rewrite append_empty. by apply trimEnd_blank.
  - rewrite ?append_String. simpl. rewrite IH. reflexivity.
Qed.

End StringFacts.

Section NumberFacts.

Import JsNumber.

Lemma readDigits_nonneg (s : string) (seen : bool) (acc : Z) :
  0 <= acc -> 0 <= orZero (readDigits s seen acc).
Proof.
  revert seen acc. induction s as [|c r IH]; intros seen acc Hacc; simpl.
  - destruct seen; simpl; [destruct (acc =? 0); lia | lia].
  - destruct (JsString.isDigit c) eqn:E.
    + apply IH. pose proof (isDigit_digitValue c E). lia.
    + destruct seen; simpl; [destruct (acc =? 0); lia | lia].
Qed.

Lemma orZero_negate_nonpos (s : string) :
  orZero (negate (readDigits s false 0)) <= 0.
Proof.
  pose proof (readDigits_nonneg s false 0 ltac:(lia)) as H.
  destruct (readDigits s false 0) as [|n]; simpl in *; [lia |].
  destruct (Z.eqb_spec n 0), (Z.eqb_spec (- n) 0); lia.
Qed.

Lemma round_integer (n : Z) (x : Q) : (x == inject_Z n)%Q -> round x = n.
Proof.
  intros H. unfold round.
  rewrite (Qfloor_comp _ (inject_Z n + (1 # 2))%Q) by (rewrite H; reflexivity).
  unfold Qfloor, Qplus, inject_Z; simpl.
  symmetry. apply (Z.div_unique _ _ _ 1); lia.
Qed.

Lemma min_spec (a b : Z) : min a b = Z.min a b.
Proof. unfold min. destruct (Z.leb_spec a b); lia. Qed.

End NumberFacts.

(** The percentage of [maxCourses], capped: five points per course. *)
Lemma progressOf_eq (total : Z) : progressOf total = Z.min (5 * total) 100.
Proof.
  unfold progressOf. rewrite min_spec.
  rewrite (round_integer (5 * total)); [reflexivity |].
  unfold maxCourses, Qeq, Qdiv, Qmult, Qinv, inject_Z; cbn -[Z.mul]. lia.
Qed.

(** ** Derived fields of one row *)

Lemma nearestInteger_integer (n : Z) (x : Q) :
  (x == inject_Z n)%Q -> nearestInteger x = n.
Proof.
  intros H. unfold nearestInteger. destruct (Qle_bool 0 x).
  - exact (round_integer n x H).
  - rewrite (Qceiling_comp _ (inject_Z n - (1 # 2))%Q) by (rewrite H; reflexivity).
    unfold Qceiling, Qfloor, Qminus, Qplus, Qopp, inject_Z; cbn -[Z.mul Z.div].
    change (Z.pos (1 * 2)) with 2.
    match goal with
    | |- - (Z.div ?a 2) = _ => assert (Z.div a 2 = - n) as ->; [| lia]
    end.
    symmetry. apply (Z.div_unique _ _ _ 1); lia.
Qed.

(** C2. For every parsed row the derived [progress] is
    min(100, round((skillBadges + arcadePoints) / 20 * 100)), taken at the
    [skillBadges] and [arcadePoints] derived for that row. *)
Theorem C2_progress_formula (item : Row) :
  progress (processItem item)
  = specProgress (skillBadges (processItem item)) (arcadePoints (processItem item)).
Proof.
  unfold specProgress. cbn [processItem progress skillBadges arcadePoints].
  rewrite progressOf_eq.
  set (total := _ + _).
  rewrite (nearestInteger_integer (5 * total)); [lia |].
  unfold Qeq, Qdiv, Qmult, Qinv, inject_Z; cbn -[Z.mul]. lia.
Qed.

(** C10. A row whose name field is absent or empty yields the name
    "Unknown Name"; any other row yields its name field unchanged. *)
Theorem C10_name_default (item : Row) :
  (item !! nameLabel = None \/ item !! nameLabel = Some "" ->
   name (processItem item) = "Unknown Name")
  /\ (forall s, item !! nameLabel = Some s -> s <> "" ->
      name (processItem item) = s).
Proof.
  unfold nameLabel. cbn [processItem name]. split.
  - intros [-> | ->]; reflexivity.
  - intros s -> Hs. by apply orElse_present.
Qed.

Lemma C10_name_default_witness :
  name (processItem (row [(statusLabel, "Yes")])) = "Unknown Name"
  /\ name (processItem (row [(nameLabel, "")])) = "Unknown Name"
  /\ name (processItem sampleRow) = "Asha".
Proof.
  split; [| split].
  - apply (proj1 (C10_name_default (row [(statusLabel, "Yes")]))).
    left. vm_compute. reflexivity.
  - apply (proj1 (C10_name_default (row [(nameLabel, "")]))).
    right. vm_compute. reflexivity.
  - apply (proj2 (C10_name_default sampleRow) "Asha").
    + vm_compute. reflexivity.
    + discriminate.
Defined.

Example isRedeemed_samples :
  map isRedeemed [Some "Yes"; Some " yes"; Some "YES  "; Some "yEs"; Some "";
                  Some "No"; Some "yes!"; Some "y es"; Some "true"; None]
  = [true; true; true; true; false; false; false; false; false; false].
Proof. vm_compute. reflexivity. Qed.

(** The status fields that count as redeemed: one of the eight spellings of
    "yes" between two runs of white space. *)
Lemma isRedeemed_shape (s : string) :
  isRedeemed (Some s) = true ->
  exists before yes after,
    s = before +:+ yes +:+ after
    /\ yes ∈ ["yes"; "yeS"; "yEs"; "yES"; "Yes"; "YeS"; "YEs"; "YES"]
    /\ Forall (fun c => JsString.isWhiteSpace c = true) (list_ascii_of_string before)
    /\ Forall (fun c => JsString.isWhiteSpace c = true) (list_ascii_of_string after).
Proof.
  simpl. rewrite bool_decide_eq_true. intros H.
  destruct (trimStart_spec s) as (before & Hb & Hbefore).
  destruct (trimEnd_spec (JsString.trimStart s)) as (after & Ha & Hafter).
  exists before, (JsString.trim s), after. split; [| split; [| split]]; try assumption.
  - unfold JsString.trim. rewrite <- Ha. exact Hb.
  - by apply toLowerCase_yes.
Qed.

(** Conversely, each such field counts as redeemed. *)
Lemma isRedeemed_spelling (before yes after : string) :
  yes ∈ ["yes"; "yeS"; "yEs"; "yES"; "Yes"; "YeS"; "YEs"; "YES"] ->
  Forall (fun c => JsString.isWhiteSpace c = true) (list_ascii_of_string before) ->
  Forall (fun c => JsString.isWhiteSpace c = true) (list_ascii_of_string after) ->
  isRedeemed (Some (before +:+ yes +:+ after)) = true.
Proof.
  intros Hyes Hbefore Hafter. simpl. rewrite bool_decide_eq_true.
  unfold JsString.trim. rewrite (trimStart_blank_app before _ Hbefore).
  assert (JsString.trimStart (yes +:+ after) = yes +:+ after) as ->.
  { repeat (apply elem_of_cons in Hyes as [-> | Hyes]; [reflexivity |]).
    by apply elem_of_nil in Hyes. }
  rewrite (trimEnd_app_blank yes after Hafter).
  repeat (apply elem_of_cons in Hyes as [-> | Hyes]; [reflexivity |]).
  by apply elem_of_nil in Hyes.
Qed.

Lemma capital_Y (c : ascii) : capital c = "Y"%char -> c = "y"%char \/ c = "Y"%char.
Proof.
  destruct c as [[] [] [] [] [] [] [] []]; vm_compute; intros H;
    first [ discriminate H | left; reflexivity | right; reflexivity ].
Qed.

Lemma capital_E (c : ascii) : capital c = "E"%char -> c = "e"%char \/ c = "E"%char.
Proof.
  destruct c as [[] [] [] [] [] [] [] []]; vm_compute; intros H;
    first [ discriminate H | left; reflexivity | right; reflexivity ].
Qed.

Lemma capital_S (c : ascii) : capital c = "S"%char -> c = "s"%char \/ c = "S"%char.
Proof.
  destruct c as [[] [] [] [] [] [] [] []]; vm_compute; intros H;
    first [ discriminate H | left; reflexivity | right; reflexivity ].
Qed.

(** The strings that are "yes" up to case are its eight spellings. *)
Lemma sameIgnoringCase_yes (t : string) :
  sameIgnoringCase t "yes" <->
  t ∈ ["yes"; "yeS"; "yEs"; "yES"; "Yes"; "YeS"; "YEs"; "YES"].
Proof.
  unfold sameIgnoringCase. split.
  - destruct t as [|c1 [|c2 [|c3 [|c4 r]]]]; simpl; try discriminate.
    intros H. injection H as H1 H2 H3.
    apply capital_Y in H1. apply capital_E in H2. apply capital_S in H3.
    destruct H1, H2, H3; subst; set_solver.
  - intros H. repeat (apply elem_of_cons in H as [-> | H]; [reflexivity |]).
    by apply elem_of_nil in H.
Qed.

Lemma yes_edgesNotBlank (t : string) :
  t ∈ ["yes"; "yeS"; "yEs"; "yES"; "Yes"; "YeS"; "YEs"; "YES"] -> edgesNotBlank t.
Proof.
  intros H c Hc.
  repeat (apply elem_of_cons in H as [-> | H];
          [destruct Hc as [Hc | Hc]; vm_compute in Hc; injection Hc as <-; reflexivity |]).
  by apply elem_of_nil in H.
Qed.

(** C5. The derived [redemptionStatus] is true exactly when the status
    field is present and what is left of it after trimming the white space
    at its ends is "yes" up to the case of its letters; it is false for
    every other field and for an absent one. *)
Theorem C5_redemption_status (item : Row) :
  (redemptionStatus (processItem item) = true <->
   exists s t, item !! statusLabel = Some s
               /\ trimmedForm s t /\ sameIgnoringCase t "yes")
  /\ (item !! statusLabel = None -> redemptionStatus (processItem item) = false).
Proof.
  unfold statusLabel. cbn [processItem redemptionStatus]. split.
  - destruct (item !! _) as [s|]; [| split; [discriminate | intros (s & t & [=] & _)]].
    split.
    + intros H. destruct (isRedeemed_shape s H) as (before & yes & after & -> & Hyes & Hb & Ha).
      exists (before +:+ yes +:+ after), yes. split; [reflexivity |]. split.
      * exists before, after. repeat split; try assumption. by apply yes_edgesNotBlank.
      * by apply sameIgnoringCase_yes.
    + intros (s' & t & [= <-] & (before & after & -> & Hb & Ha & _) & Hyes).
      apply isRedeemed_spelling; [by apply sameIgnoringCase_yes | exact Hb | exact Ha].
  - intros ->. reflexivity.
Qed.

Lemma C5_redemption_status_witness :
  redemptionStatus (processItem sampleRow) = true
  /\ redemptionStatus (processItem (row [(nameLabel, "Asha")])) = false.
Proof.
  split.
  - apply (proj1 (C5_redemption_status sampleRow)).
    exists " YES ", "YES". split; [vm_compute; reflexivity |]. split.
    + exists " ", " ". split; [reflexivity |].
      split; [repeat constructor |]. split; [repeat constructor |].
      intros c [Hc | Hc]; vm_compute in Hc; injection Hc as <-; reflexivity.
    + reflexivity.
  - apply (proj2 (C5_redemption_status (row [(nameLabel, "Asha")]))).
    vm_compute. reflexivity.
Defined.

(** ** Ranges of the derived numbers *)

Lemma parseInt_unsigned (v : option string) :
  unsigned v -> 0 <= JsNumber.orZero (JsNumber.parseInt v).
Proof.
  unfold unsigned, JsNumber.parseInt. destruct v as [s|].
  - cbn [fmap option_fmap option_map].
    destruct (JsString.trimStart s) as [|c r]; [intros _; vm_compute; discriminate |].
    destruct c as [[] [] [] [] [] [] [] []]; intros Hc;
      first [ apply readDigits_nonneg; lia | destruct Hc ].
  - intros _. vm_compute. discriminate.
Qed.

(** C3, as stated, fails: a field holding a negative number is parsed as
    such, and the progress computed from it is negative too. *)
Lemma C3_counterexample :
  skillBadges (processItem negativeRow) = -5
  /\ progress (processItem negativeRow) = -25
  /\ ~ (0 <= skillBadges (processItem negativeRow)
        /\ 0 <= arcadePoints (processItem negativeRow)
        /\ 0 <= progress (processItem negativeRow) <= 100).
Proof.
  split; [vm_compute; reflexivity |].
  split; [vm_compute; reflexivity |].
  intros (H & _). vm_compute in H. apply H. reflexivity.
Qed.

(** C3, amended. For every entry, [skillBadges] and [arcadePoints] are
    integers that are at least 0 unless the field starts, after white
    space, with a minus sign; [progress] is an integer that is at most 100,
    and lies in [0, 100] whenever the two counts are at least 0. *)
Theorem C3_derived_ranges (item : Row) :
  let e := processItem item in
  progress e <= 100
  /\ (unsigned (item !! badgesLabel) -> 0 <= skillBadges e)
  /\ (unsigned (item !! arcadeLabel) -> 0 <= arcadePoints e)
  /\ (0 <= skillBadges e -> 0 <= arcadePoints e -> 0 <= progress e <= 100).
Proof.
  cbn zeta. cbn [processItem progress skillBadges arcadePoints].
  rewrite progressOf_eq. unfold badgesLabel, arcadeLabel.
  split; [lia |]. split; [apply parseInt_unsigned |].
  split; [apply parseInt_unsigned |]. lia.
Qed.

Lemma C3_derived_ranges_witness :
  0 <= skillBadges (processItem sampleRow)
  /\ 0 <= arcadePoints (processItem sampleRow)
  /\ 0 <= progress (processItem sampleRow) <= 100.
Proof.
  pose proof (C3_derived_ranges sampleRow) as (_ & Hb & Ha & Hp).
  assert (0 <= skillBadges (processItem sampleRow)) as H1
    by (apply Hb; vm_compute; exact I).
  assert (0 <= arcadePoints (processItem sampleRow)) as H2
    by (apply Ha; vm_compute; exact I).
  split; [exact H1 |]. split; [exact H2 |]. exact (Hp H1 H2).
Defined.

(** ** The header row *)

Lemma removeHeaderRow_cons (first : Row) (rest : list Row) :
  removeHeaderRow (first :: rest)
  = if bool_decide (first !! nameLabel = Some "User Name") then rest else first :: rest.
Proof. reflexivity. Qed.

Lemma cons_neq_tail {A : Type} (x : A) (l : list A) : x :: l <> l.
Proof.
  intros H. apply (f_equal length) in H. simpl in H. lia.
Qed.

(** C7, as stated, fails: the first row is dropped on the strength of its
    name cell alone, so a data row whose name cell reads "User Name" is
    dropped although it does not repeat the header. *)
Lemma C7_counterexample :
  removeHeaderRow [namesakeRow; sampleRow] = [sampleRow]
  /\ ~ repeatsHeaderLabels namesakeRow.
Proof.
  split; [vm_compute; reflexivity |].
  intros H. specialize (H badgesLabel "12").
  assert (namesakeRow !! badgesLabel = Some "12") as Hcell
    by (vm_compute; reflexivity).
  specialize (H Hcell). discriminate H.
Qed.

(** C7, amended. The first parsed row is removed exactly when its
    "User Name" cell is the string "User Name", and kept otherwise; a first
    row that repeats the header labels of a file with a "User Name" column
    is therefore removed. *)
Theorem C7_header_row (first : Row) (rest : list Row) :
  (removeHeaderRow (first :: rest) = rest <-> first !! nameLabel = Some "User Name")
  /\ (removeHeaderRow (first :: rest) = first :: rest
      <-> first !! nameLabel <> Some "User Name")
  /\ (repeatsHeaderLabels first -> is_Some (first !! nameLabel) ->
      removeHeaderRow (first :: rest) = rest).
Proof.
  rewrite removeHeaderRow_cons.
  pose proof (cons_neq_tail first rest) as Hne.
  destruct (bool_decide_reflect (first !! nameLabel = Some "User Name")) as [Hn | Hn].
  - split; [tauto |]. split; [| reflexivity].
    split; [intros H; symmetry in H; contradiction | contradiction].
  - split; [split; [intros H; contradiction | contradiction] |].
    split; [tauto |].
    intros Hrep [cell Hcell]. exfalso. apply Hn.
    rewrite Hcell. f_equal. exact (Hrep nameLabel cell Hcell).
Qed.

Lemma C7_header_row_witness :
  removeHeaderRow [headerCopy; sampleRow] = [sampleRow]
  /\ removeHeaderRow [sampleRow; namesakeRow] = [sampleRow; namesakeRow].
Proof.
  split.
  - apply (proj2 (proj2 (C7_header_row headerCopy [sampleRow]))).
    + intros label cell Hcell.
      apply (elem_of_list_to_map_2 (M := gmap string)) in Hcell.
      repeat (apply elem_of_cons in Hcell as [[= -> ->] | Hcell]; [reflexivity |]).
      by apply elem_of_nil in Hcell.
    + exists nameLabel. vm_compute. reflexivity.
  - apply (proj2 (proj1 (proj2 (C7_header_row sampleRow [namesakeRow])))).
    vm_compute. discriminate.
Defined.

(** ** Sorting with a consistent comparator *)

Section ConsistentFacts.

Context {A : Type} (cmp : A -> A -> Z) (Hcmp : Consistent cmp).

Lemma cmp_lt_gt (a b : A) : cmp a b < 0 -> cmp b a > 0.
Proof.
  intros Hab. destruct (Z.lt_trichotomy (cmp b a) 0) as [Hba | [Hba | Hba]].
  - pose proof (cmp_lt_trans cmp Hcmp a b a Hab Hba) as H.
    rewrite (cmp_refl cmp Hcmp) in H. lia.
  - apply (cmp_sym cmp Hcmp) in Hba. lia.
  - lia.
Qed.

Lemma cmp_gt_lt (a b : A) : cmp a b > 0 -> cmp b a < 0.
Proof.
  intros Hab. destruct (Z.lt_trichotomy (cmp b a) 0) as [Hba | [Hba | Hba]].
  - exact Hba.
  - apply (cmp_sym cmp Hcmp) in Hba. lia.
  - pose proof (cmp_gt_trans cmp Hcmp a b a Hab ltac:(lia)) as H.
    rewrite (cmp_refl cmp Hcmp) in H. lia.
Qed.

Lemma cmp_lt_eq (a b c : A) : cmp a b < 0 -> cmp b c = 0 -> cmp a c < 0.
Proof.
  intros Hab Hbc. destruct (Z.lt_trichotomy (cmp a c) 0) as [Hac | [Hac | Hac]].
  - exact Hac.
  - pose proof (cmp_eq_trans cmp Hcmp a c b Hac (cmp_sym cmp Hcmp b c Hbc)). lia.
  - pose proof (cmp_lt_gt a b Hab) as Hba.
    pose proof (cmp_gt_trans cmp Hcmp b a c Hba ltac:(lia)). lia.
Qed.

Lemma cmp_eq_lt (a b c : A) : cmp a b = 0 -> cmp b c < 0 -> cmp a c < 0.
Proof.
  intros Hab Hbc. destruct (Z.lt_trichotomy (cmp a c) 0) as [Hac | [Hac | Hac]].
  - exact Hac.
  - pose proof (cmp_eq_trans cmp Hcmp b a c (cmp_sym cmp Hcmp a b Hab) Hac). lia.
  - pose proof (cmp_lt_gt b c Hbc) as Hcb.
    pose proof (cmp_gt_trans cmp Hcmp a c b ltac:(lia) Hcb). lia.
Qed.

Lemma cmp_le_trans (a b c : A) : cmp a b <= 0 -> cmp b c <= 0 -> cmp a c <= 0.
Proof.
  intros Hab Hbc.
  destruct (Z.lt_trichotomy (cmp a b) 0) as [Hab' | [Hab' | Hab']]; [| | lia];
    destruct (Z.lt_trichotomy (cmp b c) 0) as [Hbc' | [Hbc' | Hbc']]; try lia.
  - pose proof (cmp_lt_trans cmp Hcmp a b c Hab' Hbc'). lia.
  - pose proof (cmp_lt_eq a b c Hab' Hbc'). lia.
  - pose proof (cmp_eq_lt a b c Hab' Hbc'). lia.
  - pose proof (cmp_eq_trans cmp Hcmp a b c Hab' Hbc'). lia.
Qed.

Lemma insert_Permutation (x : A) (l : list A) :
  Permutation (JsArray.insert cmp x l) (x :: l).
Proof.
  induction l as [|y ys IH]; simpl; [reflexivity |].
  destruct (cmp x y <=? 0); [reflexivity |].
  rewrite IH. apply perm_swap.
Qed.

Lemma sort_Permutation (l : list A) : Permutation (JsArray.sort cmp l) l.
Proof.
  induction l as [|x l IH]; simpl; [reflexivity |].
  rewrite insert_Permutation. by constructor.
Qed.

Lemma insert_sorted (x : A) (l : list A) :
  StronglySorted (before cmp) l -> StronglySorted (before cmp) (JsArray.insert cmp x l).
Proof.
  induction 1 as [|y ys Hys IH Hall]; simpl.
  - repeat constructor.
  - destruct (Z.leb_spec (cmp x y) 0) as [Hxy | Hxy].
    + constructor; [by constructor |].
      constructor; [exact Hxy |].
      eapply Forall_impl; [exact Hall |].
      intros z Hyz. by apply (cmp_le_trans x y z).
    + constructor; [exact IH |].
      rewrite (insert_Permutation x ys). constructor; [| exact Hall].
      pose proof (cmp_gt_lt x y ltac:(lia)). unfold before. lia.
Qed.

Lemma sort_sorted (l : list A) : StronglySorted (before cmp) (JsArray.sort cmp l).
Proof.
  induction l as [|x l IH]; simpl; [constructor | by apply insert_sorted].
Qed.

Lemma insert_filter_tied (x a : A) (l : list A) :
  filter (fun y => tied cmp x y = true) (JsArray.insert cmp a l)
  = filter (fun y => tied cmp x y = true) (a :: l).
Proof.
  induction l as [|y ys IH]; simpl; [reflexivity |].
  destruct (Z.leb_spec (cmp a y) 0) as [Hay | Hay]; [reflexivity |].
  rewrite !filter_cons in *.
  destruct (decide (tied cmp x y = true)) as [Hy | Hy];
    destruct (decide (tied cmp x a = true)) as [Ha | Ha];
    rewrite IH; try reflexivity.
  exfalso. unfold tied in *. apply Z.eqb_eq in Hy, Ha.
  pose proof (cmp_eq_trans cmp Hcmp a x y (cmp_sym cmp Hcmp x a Ha) Hy). lia.
Qed.

(** Stability: each class keeps the order it had in the input. *)
Lemma sort_stable (x : A) (l : list A) :
  filter (fun y => tied cmp x y = true) (JsArray.sort cmp l)
  = filter (fun y => tied cmp x y = true) l.
Proof.
  induction l as [|a l IH]; simpl; [reflexivity |].
  rewrite insert_filter_tied, !filter_cons, IH. reflexivity.
Qed.

Lemma filter_tied_self (a : A) (l : list A) :
  filter (fun y => tied cmp a y = true) (a :: l)
  = a :: filter (fun y => tied cmp a y = true) l.
Proof.
  rewrite filter_cons. destruct (decide (tied cmp a a = true)) as [_ | Hn]; [reflexivity |].
  exfalso. apply Hn. unfold tied. rewrite (cmp_refl cmp Hcmp). reflexivity.
Qed.

Lemma filter_tied_elem (x a : A) (l1 l2 : list A) :
  filter (fun y => tied cmp x y = true) (a :: l1)
  = filter (fun y => tied cmp x y = true) l2 ->
  tied cmp x a = true -> a ∈ l2.
Proof.
  intros Hf Ha. rewrite filter_cons in Hf.
  destruct (decide (tied cmp x a = true)); [| contradiction].
  assert (a ∈ filter (fun y => tied cmp x y = true) l2) as Hin
    by (rewrite <- Hf; apply list_elem_of_here).
  apply list_elem_of_filter in Hin. tauto.
Qed.

(** Two ordered arrays whose classes hold the same entries in the same
    order are the same array. *)
Lemma sorted_classes_unique (l1 l2 : list A) :
  StronglySorted (before cmp) l1 -> StronglySorted (before cmp) l2 ->
  (forall x, filter (fun y => tied cmp x y = true) l1
             = filter (fun y => tied cmp x y = true) l2) ->
  l1 = l2.
Proof.
  intros H1. revert l2.
  induction H1 as [|a l1 Hs1 IH Hall1]; intros l2 H2 Hf.
  - destruct l2 as [|b l2]; [reflexivity |].
    specialize (Hf b). rewrite filter_tied_self in Hf. discriminate Hf.
  - destruct H2 as [|b l2 Hs2 Hall2].
    + specialize (Hf a). rewrite filter_tied_self in Hf. discriminate Hf.
    + assert (tied cmp a a = true) as Haa
        by (unfold tied; rewrite (cmp_refl cmp Hcmp); reflexivity).
      assert (tied cmp b b = true) as Hbb
        by (unfold tied; rewrite (cmp_refl cmp Hcmp); reflexivity).
      rewrite Forall_forall in Hall1, Hall2.
      assert (cmp b a <= 0) as Hba.
      { pose proof (filter_tied_elem a a l1 (b :: l2) (Hf a) Haa) as Hin.
        apply elem_of_cons in Hin as [-> | Hin];
          [rewrite (cmp_refl cmp Hcmp); lia | by apply Hall2]. }
      assert (cmp a b <= 0) as Hab.
      { pose proof (filter_tied_elem b b l2 (a :: l1) (eq_sym (Hf b)) Hbb) as Hin.
        apply elem_of_cons in Hin as [-> | Hin];
          [rewrite (cmp_refl cmp Hcmp); lia | by apply Hall1]. }
      assert (cmp a b = 0) as Htie.
      { destruct (Z.lt_trichotomy (cmp a b) 0) as [Hlt | [Heq | Hgt]]; [| exact Heq | lia].
        pose proof (cmp_lt_gt a b Hlt). lia. }
      assert (a = b) as <-.
      { pose proof (Hf a) as Hfa. rewrite filter_tied_self in Hfa.
        rewrite filter_cons in Hfa.
        destruct (decide (tied cmp a b = true)) as [_ | Hn].
        - by injection Hfa.
        - exfalso. apply Hn. unfold tied. rewrite Htie. reflexivity. }
      f_equal. apply IH; [exact Hs2 |].
      intros x. specialize (Hf x). rewrite !filter_cons in Hf.
      destruct (decide (tied cmp x a = true)); [by injection Hf | exact Hf].
Qed.

(** The result of [sort] is the only array that is ordered by the
    comparator and keeps every class in its input order: whatever algorithm
    an engine runs, an engine that meets this contract returns it. *)
Lemma sort_unique (l out : list A) :
  StronglySorted (before cmp) out ->
  (forall x, filter (fun y => tied cmp x y = true) out
             = filter (fun y => tied cmp x y = true) l) ->
  out = JsArray.sort cmp l.
Proof.
  intros Hsorted Hstable.
  apply sorted_classes_unique; [exact Hsorted | apply sort_sorted |].
  intros x. rewrite sort_stable. apply Hstable.
Qed.

Lemma sorted_lookup (l : list A) (i j : nat) (a b : A) :
  StronglySorted (before cmp) l -> (i < j)%nat ->
  l !! i = Some a -> l !! j = Some b -> cmp a b <= 0.
Proof.
  intros Hl. revert i j. induction Hl as [|y ys Hys IH Hall]; intros i j Hij Hi Hj.
  - by rewrite lookup_nil in Hi.
  - destruct j as [|j]; [lia |]. simpl in Hj. destruct i as [|i]; simpl in Hi.
    + injection Hi as ->. rewrite Forall_forall in Hall.
      apply Hall. eapply list_elem_of_lookup_2. exact Hj.
    + apply (IH i j); [lia | assumption | assumption].
Qed.

End ConsistentFacts.

(** ** The comparator of the handler *)

Section Comparator.

Variable localeCompare : string -> string -> Z.

Local Abbreviation compare := (compareEntries localeCompare).

(** The four levels at which [compareEntries] decides. *)
Lemma compareEntries_cases (a b : LeaderboardEntry) :
  (redemptionStatus a <> redemptionStatus b
   /\ compare a b = if redemptionStatus a then -1 else 1)
  \/ (redemptionStatus a = redemptionStatus b
      /\ skillBadges a <> skillBadges b
      /\ compare a b = skillBadges b - skillBadges a)
  \/ (redemptionStatus a = redemptionStatus b
      /\ skillBadges a = skillBadges b
      /\ arcadePoints a <> arcadePoints b
      /\ compare a b = arcadePoints b - arcadePoints a)
  \/ (redemptionStatus a = redemptionStatus b
      /\ skillBadges a = skillBadges b
      /\ arcadePoints a = arcadePoints b
      /\ compare a b = localeCompare (name a) (name b)).
Proof.
  unfold compareEntries. rewrite !orElse_Some_empty.
  destruct (redemptionStatus a), (redemptionStatus b); simpl;
    try (left; split; [discriminate | reflexivity]);
    right;
    (destruct (Z.eqb_spec (skillBadges b) (skillBadges a)); simpl;
     [right | left; repeat split; congruence]);
    (destruct (Z.eqb_spec (arcadePoints b) (arcadePoints a)); simpl;
     [right | left; repeat split; congruence]);
    repeat split; congruence.
Qed.

Hypothesis HlocaleCompare : Consistent localeCompare.

Local Ltac by_levels a b H :=
  destruct (compareEntries_cases a b)
    as [(? & H) | [(? & ? & H) | [(? & ? & ? & H) | (? & ? & ? & H)]]];
  rewrite H; clear H.

Local Ltac settle :=
  repeat match goal with
    | |- context [redemptionStatus ?e] => destruct (redemptionStatus e)
    end;
  try congruence; try lia.

Lemma compareEntries_consistent : Consistent compare.
Proof.
  split.
  - intros a. by_levels a a H; settle. apply (cmp_refl _ HlocaleCompare).
  - intros a b. by_levels a b H; by_levels b a H'; settle.
    apply (cmp_sym _ HlocaleCompare).
  - intros a b c. by_levels a b H; by_levels b c H'; by_levels a c H''; settle.
    apply (cmp_eq_trans _ HlocaleCompare).
  - intros a b c. by_levels a b H; by_levels b c H'; by_levels a c H''; settle.
    apply (cmp_lt_trans _ HlocaleCompare).
  - intros a b c. by_levels a b H; by_levels b c H'; by_levels a c H''; settle.
    apply (cmp_gt_trans _ HlocaleCompare).
Qed.

(** What [compare a b <= 0] says, level by level. *)
Lemma compareEntries_le (a b : LeaderboardEntry) :
  compare a b <= 0 ->
  (redemptionStatus b = true -> redemptionStatus a = true)
  /\ (redemptionStatus a = redemptionStatus b -> skillBadges b <= skillBadges a)
  /\ (redemptionStatus a = redemptionStatus b -> skillBadges a = skillBadges b ->
      arcadePoints b <= arcadePoints a)
  /\ (redemptionStatus a = redemptionStatus b -> skillBadges a = skillBadges b ->
      arcadePoints a = arcadePoints b -> localeCompare (name a) (name b) <= 0).
Proof.
  by_levels a b H; intros Hle; repeat split; intros; settle.
Qed.

End Comparator.

(** ** The sample collation is consistent *)

Section CodeUnitOrder.

Lemma codeUnitCompare_opp (a b : string) :
  codeUnitCompare b a = - codeUnitCompare a b.
Proof.
  revert b. induction a as [|x a IH]; intros [|y b]; simpl; try reflexivity.
  rewrite (N.compare_antisym (N_of_ascii x) (N_of_ascii y)).
  destruct (N_of_ascii x ?= N_of_ascii y)%N; simpl; [apply IH | reflexivity | reflexivity].
Qed.

Lemma codeUnitCompare_refl (a : string) : codeUnitCompare a a = 0.
Proof.
  induction a as [|x a IH]; simpl; [reflexivity |].
  by rewrite N.compare_refl.
Qed.

Lemma codeUnitCompare_eq (a b : string) : codeUnitCompare a b = 0 -> a = b.
Proof.
  revert b. induction a as [|x a IH]; intros [|y b]; simpl; try discriminate.
  - reflexivity.
  - destruct (N.compare_spec (N_of_ascii x) (N_of_ascii y)) as [Hxy | |];
      try discriminate.
    intros H. f_equal; [| by apply IH].
    rewrite <- (ascii_N_embedding x), <- (ascii_N_embedding y). by f_equal.
Qed.

Lemma codeUnitCompare_lt_trans (a b c : string) :
  codeUnitCompare a b < 0 -> codeUnitCompare b c < 0 -> codeUnitCompare a c < 0.
Proof.
  revert b c. induction a as [|x a IH]; intros [|y b] [|z c]; simpl; try lia.
  destruct (N.compare_spec (N_of_ascii x) (N_of_ascii y)) as [Hxy | Hxy | Hxy];
    destruct (N.compare_spec (N_of_ascii y) (N_of_ascii z)) as [Hyz | Hyz | Hyz];
    destruct (N.compare_spec (N_of_ascii x) (N_of_ascii z)) as [Hxz | Hxz | Hxz];
    try lia.
  apply IH.
Qed.

Lemma codeUnitCompare_consistent : Consistent codeUnitCompare.
Proof.
  split.
  - apply codeUnitCompare_refl.
  - intros a b H. apply codeUnitCompare_eq in H as ->. apply codeUnitCompare_refl.
  - intros a b c H1 H2.
    apply codeUnitCompare_eq in H1 as ->. exact H2.
  - apply codeUnitCompare_lt_trans.
  - intros a b c H1 H2.
    pose proof (codeUnitCompare_lt_trans c b a) as H.
    rewrite (codeUnitCompare_opp a c), (codeUnitCompare_opp a b),
      (codeUnitCompare_opp b c) in H. lia.
Qed.

End CodeUnitOrder.

(** ** Sorting and ranking the entries *)

Lemma denseRanksFrom_positions {A : Type} (cmp : A -> A -> Z) (prev : A) (r : Z)
    (l : list A) :
  denseRanksFrom cmp prev r l = map (fun i => r + 1 + Z.of_nat i) (seq 0 (length l))
  <-> noTieFrom cmp prev l.
Proof.
  revert prev r. induction l as [|x xs IH]; intros prev r; simpl; [tauto |].
  rewrite <- seq_shift, map_map.
  destruct (Z.eqb_spec (cmp prev x) 0) as [Htie | Hne].
  - split; [intros [= H _]; lia | tauto].
  - split.
    + intros H. injection H as _ H. split; [exact Hne |].
      apply (IH x (r + 1)). rewrite H. apply map_ext. intros i. lia.
    + intros [_ H]. apply (IH x (r + 1)) in H.
      f_equal; [lia |]. rewrite H. apply map_ext. intros i. lia.
Qed.

Lemma denseRanks_positions {A : Type} (cmp : A -> A -> Z) (l : list A) :
  denseRanks cmp l = positions (length l) <-> noNeighbourTies cmp l.
Proof.
  destruct l as [|x xs]; simpl; [tauto |].
  rewrite <- (denseRanksFrom_positions cmp x 1 xs).
  unfold positions. simpl. rewrite <- seq_shift, map_map. split.
  - intros H. injection H as H. rewrite H. apply map_ext. intros i. lia.
  - intros H. f_equal. rewrite H. apply map_ext. intros i. lia.
Qed.

Section Ranking.

Variable localeCompare : string -> string -> Z.

Local Abbreviation compare := (compareEntries localeCompare).

Lemma rankedData_lookup (results : list Row) (i : nat) :
  rankedData localeCompare results !! i
  = (fun e => addRank e i) <$> sortedData localeCompare results !! i.
Proof. unfold rankedData, JsArray.mapi. apply list_lookup_imap. Qed.

Lemma rankedData_length (results : list Row) :
  length (rankedData localeCompare results)
  = length (sortedData localeCompare results).
Proof. unfold rankedData, JsArray.mapi. apply length_imap. Qed.

Lemma mapi_addRank_rank (l : list LeaderboardEntry) (k : nat) :
  map rank (imap (fun index x => addRank x (k + index)) l)
  = map (fun i => Some (Z.of_nat i + 1)) (seq k (length l)).
Proof.
  revert k. induction l as [|e l IH]; intros k; simpl; [reflexivity |].
  f_equal; [by rewrite Nat.add_0_r |].
  rewrite <- (IH (S k)). f_equal. apply imap_ext. intros i x _. simpl.
  f_equal. lia.
Qed.

Lemma rankedData_ranks (results : list Row) :
  map rank (rankedData localeCompare results)
  = map Some (positions (length (rankedData localeCompare results))).
Proof.
  rewrite rankedData_length. unfold rankedData, JsArray.mapi, positions.
  rewrite map_map. apply (mapi_addRank_rank _ 0).
Qed.

Lemma unranked_addRank (e : LeaderboardEntry) (i : nat) :
  unranked (addRank e i) = unranked e.
Proof. reflexivity. Qed.

Lemma unranked_processItem (item : Row) : unranked (processItem item) = processItem item.
Proof. reflexivity. Qed.

Lemma sortedData_unranked (results : list Row) :
  map unranked (sortedData localeCompare results) = sortedData localeCompare results.
Proof.
  etransitivity; [| apply List.map_id].
  apply map_ext_in. intros e He.
  apply (Permutation_in _ (sort_Permutation compare _)) in He.
  apply in_map_iff in He as (item & <- & _). apply unranked_processItem.
Qed.

(** Ranking leaves the entries and their order as the sort left them. *)
Lemma rankedData_unranked (results : list Row) :
  map unranked (rankedData localeCompare results) = sortedData localeCompare results.
Proof.
  rewrite <- (sortedData_unranked results).
  unfold rankedData, JsArray.mapi.
  generalize (sortedData localeCompare results) as l. intros l.
  change (fun index x => addRank x index) with (fun index x => addRank x (0 + index)).
  generalize 0%nat as k. induction l as [|e l IH]; intros k; simpl; [reflexivity |].
  f_equal. rewrite <- (IH (S k)). f_equal. apply imap_ext. intros i x _. simpl.
  f_equal. lia.
Qed.

End Ranking.

Lemma Consistent_pullback {A B : Type} (f : A -> B) (cmp : B -> B -> Z) :
  Consistent cmp -> Consistent (fun a b => cmp (f a) (f b)).
Proof.
  intros [Hrefl Hsym Heq Hlt Hgt]. split; eauto.
Qed.

Lemma caseInsensitiveCompare_consistent : Consistent caseInsensitiveCompare.
Proof.
  exact (Consistent_pullback JsString.toLowerCase _ codeUnitCompare_consistent).
Qed.

Example rankedData_sample :
  map (fun e => (name e, rank e)) (rankedData caseInsensitiveCompare sampleResults)
  = [("Dev", Some 1); ("asha", Some 2); ("Asha", Some 3); ("Chen", Some 4);
     ("Bala", Some 5)].
Proof. vm_compute. reflexivity. Qed.

(** ** The claims about order and rank *)

(** C1. In the array the handler returns, of any two entries the earlier
    one is redeemed if the later one is; with equal redemption status it
    has at least as many skill badges; with these equal too, at least as
    many arcade points; and with all three equal, its name does not follow
    the later one's in the collation. *)
Theorem C1_sort_order (localeCompare : string -> string -> Z)
    (results : list Row) (i j : nat) (a b : LeaderboardEntry) :
  Consistent localeCompare ->
  (i < j)%nat ->
  rankedData localeCompare results !! i = Some a ->
  rankedData localeCompare results !! j = Some b ->
  (redemptionStatus b = true -> redemptionStatus a = true)
  /\ (redemptionStatus a = redemptionStatus b -> skillBadges b <= skillBadges a)
  /\ (redemptionStatus a = redemptionStatus b -> skillBadges a = skillBadges b ->
      arcadePoints b <= arcadePoints a)
  /\ (redemptionStatus a = redemptionStatus b -> skillBadges a = skillBadges b ->
      arcadePoints a = arcadePoints b -> localeCompare (name a) (name b) <= 0).
Proof.
  intros Hlc Hij Ha Hb.
  rewrite rankedData_lookup in Ha, Hb.
  destruct (sortedData localeCompare results !! i) as [a'|] eqn:Ea; [| discriminate].
  destruct (sortedData localeCompare results !! j) as [b'|] eqn:Eb; [| discriminate].
  injection Ha as <-. injection Hb as <-.
  pose proof (compareEntries_consistent localeCompare Hlc) as Hcmp.
  pose proof (sorted_lookup _ _ i j a' b' (sort_sorted _ Hcmp _) Hij Ea Eb) as Hle.
  exact (compareEntries_le localeCompare a' b' Hle).
Qed.

Lemma C1_sort_order_witness :
  let a := mkEntry "asha" true 7 1 40 "7/19" "1/1" (Some 2) in
  let b := mkEntry "Chen" true 7 0 35 "7/19" "0/1" (Some 4) in
  (redemptionStatus b = true -> redemptionStatus a = true)
  /\ (redemptionStatus a = redemptionStatus b -> skillBadges b <= skillBadges a)
  /\ (redemptionStatus a = redemptionStatus b -> skillBadges a = skillBadges b ->
      arcadePoints b <= arcadePoints a)
  /\ (redemptionStatus a = redemptionStatus b -> skillBadges a = skillBadges b ->
      arcadePoints a = arcadePoints b ->
      caseInsensitiveCompare (name a) (name b) <= 0).
Proof.
  intros a b.
  apply (C1_sort_order caseInsensitiveCompare sampleResults 1 3 a b).
  - exact caseInsensitiveCompare_consistent.
  - lia.
  - vm_compute. reflexivity.
  - vm_compute. reflexivity.
Defined.

(** C9. The sort is stable: the entries of one class of the comparator
    (same redemption status, skill badges and arcade points, names that
    collate equal) stand in the returned array in the order they had in
    the processed input. *)
Theorem C9_sort_stable (localeCompare : string -> string -> Z)
    (results : list Row) (x : LeaderboardEntry) :
  Consistent localeCompare ->
  filter (fun y => tied (compareEntries localeCompare) x y = true)
         (map unranked (rankedData localeCompare results))
  = filter (fun y => tied (compareEntries localeCompare) x y = true)
           (processedData results).
Proof.
  intros Hlc. rewrite rankedData_unranked. unfold sortedData.
  apply sort_stable. by apply compareEntries_consistent.
Qed.

Lemma C9_sort_stable_witness :
  filter (fun y => tied (compareEntries caseInsensitiveCompare)
                        (processItem (participant "ASHA" "Yes" "7" "1")) y = true)
         (map unranked (rankedData caseInsensitiveCompare sampleResults))
  = [processItem (participant "asha" "Yes" "7" "1");
     processItem (participant "Asha" "Yes" "7" "1")].
Proof.
  rewrite (C9_sort_stable caseInsensitiveCompare sampleResults _
             caseInsensitiveCompare_consistent).
  vm_compute. reflexivity.
Defined.

(** C4, as stated, fails in its last part: two entries that tie are given
    the ranks 1 and 2, where dense ranking gives both rank 1. *)
Lemma C4_counterexample :
  map rank (rankedData codeUnitCompare [sampleRow; sampleRow]) = [Some 1; Some 2]
  /\ denseRanks (compareEntries codeUnitCompare)
       (rankedData codeUnitCompare [sampleRow; sampleRow]) = [1; 1].
Proof. split; vm_compute; reflexivity. Qed.

(** C4, amended. The entry at position i (from 0) of the returned array has
    rank i + 1, so the ranks are 1, 2, ..., n in array order; they are the
    dense ranking of the array exactly when no entry ties with the one
    before it. *)
Theorem C4_positional_ranks (localeCompare : string -> string -> Z)
    (results : list Row) :
  let data := rankedData localeCompare results in
  (forall i e, data !! i = Some e -> rank e = Some (Z.of_nat i + 1))
  /\ map rank data = map Some (positions (length data))
  /\ (map rank data = map Some (denseRanks (compareEntries localeCompare) data)
      <-> noNeighbourTies (compareEntries localeCompare) data).
Proof.
  cbn zeta. split; [| split].
  - intros i e He. rewrite rankedData_lookup in He.
    destruct (sortedData localeCompare results !! i); [| discriminate].
    injection He as <-. reflexivity.
  - apply rankedData_ranks.
  - rewrite rankedData_ranks, <- denseRanks_positions. split.
    + intros H. symmetry. eapply (inj (map Some)). exact H.
    + intros ->. reflexivity.
Qed.

Lemma C4_positional_ranks_witness :
  rank (mkEntry "Chen" true 7 0 35 "7/19" "0/1" (Some 4)) = Some (Z.of_nat 3 + 1).
Proof.
  apply (proj1 (C4_positional_ranks caseInsensitiveCompare sampleResults) 3%nat).
  vm_compute. reflexivity.
Defined.

(** ** The responses *)

Section Responses.

Variable localeCompare : string -> string -> Z.

Lemma GET_file_absent (fs : FileSystem) :
  existsSync fs = false ->
  GET localeCompare fs
  = Normal (errorResponse (mkError ("CSV file not found at path: " +:+ filePath fs))).
Proof. intros H. unfold GET, readRows. rewrite H. reflexivity. Qed.

Lemma GET_parser_error (fs : FileSystem) (e : Error) :
  existsSync fs = true -> stream fs = ErrorOn CsvStream e ->
  GET localeCompare fs = Normal (errorResponse e).
Proof. intros H1 H2. unfold GET, readRows. rewrite H1, H2. reflexivity. Qed.

Lemma GET_stat_error (fs : FileSystem) (rows : list Row) (e : Error) :
  existsSync fs = true -> stream fs = Ended rows -> statSync fs = inl e ->
  GET localeCompare fs = Normal (errorResponse e).
Proof.
  intros H1 H2 H3. unfold GET, readRows, stat. rewrite H1, H2, H3. reflexivity.
Qed.

Lemma GET_success (fs : FileSystem) (rows : list Row) (mtime : string) :
  existsSync fs = true -> stream fs = Ended rows -> statSync fs = inr mtime ->
  GET localeCompare fs
  = Normal (successResponse mtime (rankedData localeCompare rows)).
Proof.
  intros H1 H2 H3. unfold GET, readRows, stat. rewrite H1, H2, H3. reflexivity.
Qed.

Lemma GET_read_error (fs : FileSystem) (e : Error) :
  existsSync fs = true -> stream fs = ErrorOn ReadStream e ->
  GET localeCompare fs = Pending e.
Proof. intros H1 H2. unfold GET, readRows. rewrite H1, H2. reflexivity. Qed.

(** The handler answers, with the success payload or with the error
    payload, unless the file stream itself fails. *)
Lemma GET_responds (fs : FileSystem) :
  (existsSync fs = true -> forall e, stream fs <> ErrorOn ReadStream e) ->
  exists resp,
    GET localeCompare fs = Normal resp
    /\ ((status resp = 200 /\ exists mtime rows,
           resp = successResponse mtime (rankedData localeCompare rows))
        \/ (status resp = 500 /\ exists e, resp = errorResponse e)).
Proof.
  intros Hread. destruct (existsSync fs) eqn:Hex.
  - destruct (stream fs) as [rows | [] e] eqn:Hs.
    + destruct (statSync fs) as [e | mtime] eqn:Hst.
      * eexists. split; [by eapply GET_stat_error |]. right. eauto.
      * eexists. split; [by eapply GET_success |]. left. eauto.
    + exfalso. by eapply Hread.
    + eexists. split; [by eapply GET_parser_error |]. right. eauto.
  - eexists. split; [by apply GET_file_absent |]. right. eauto.
Qed.

Lemma rankedData_keys (results : list Row) :
  Forall (fun item => keys item = entryKeys)
         (map entryToJson (rankedData localeCompare results)).
Proof.
  apply Forall_map, Forall_lookup. intros i e He.
  rewrite rankedData_lookup in He.
  destruct (sortedData localeCompare results !! i); [| discriminate].
  injection He as <-. reflexivity.
Qed.

End Responses.

(** C8, as stated, fails: the elements of [data] carry the two display
    strings [skillBadgesStr] and [arcadePointsStr] besides the six fields
    named. *)
Lemma C8_counterexample :
  exists resp entry,
    GET codeUnitCompare sampleFs = Normal resp
    /\ field "data" (body resp) = Some (JArray [entry])
    /\ "skillBadgesStr" ∈ keys entry
    /\ keys entry <> ["name"; "redemptionStatus"; "skillBadges"; "arcadePoints";
                      "progress"; "rank"].
Proof.
  eexists. eexists. split; [vm_compute; reflexivity |].
  split; [vm_compute; reflexivity |].
  split; [| vm_compute; discriminate].
  vm_compute. set_solver.
Qed.

(** C8, amended. On success the payload has the fields success, message,
    updatedAt and data, and every element of data has exactly the fields
    name, redemptionStatus, skillBadges, arcadePoints, progress,
    skillBadgesStr, arcadePointsStr and rank. *)
Theorem C8_success_payload (localeCompare : string -> string -> Z)
    (fs : FileSystem) (resp : Response) :
  GET localeCompare fs = Normal resp ->
  status resp = 200 ->
  keys (body resp) = payloadKeys
  /\ field "success" (body resp) = Some (JBool true)
  /\ exists items,
       field "data" (body resp) = Some (JArray items)
       /\ Forall (fun item => keys item = entryKeys) items.
Proof.
  intros Hget Hstatus.
  assert (existsSync fs = true -> forall e, stream fs <> ErrorOn ReadStream e) as Hread.
  { intros Hex e Hs. rewrite (GET_read_error _ fs e Hex Hs) in Hget. discriminate. }
  destruct (GET_responds localeCompare fs Hread) as (resp' & Hget' & Hshape).
  rewrite Hget in Hget'. injection Hget' as <-.
  destruct Hshape as [(_ & mtime & rows & ->) | (H500 & _)]; [| lia].
  split; [reflexivity |]. split; [reflexivity |].
  eexists. split; [reflexivity |]. apply rankedData_keys.
Qed.

Lemma C8_success_payload_witness :
  exists resp,
    GET codeUnitCompare sampleFs = Normal resp
    /\ keys (body resp) = payloadKeys
    /\ exists items,
         field "data" (body resp) = Some (JArray items)
         /\ Forall (fun item => keys item = entryKeys) items.
Proof.
  exists (successResponse "2024-05-01T10:00:00.000Z"
            (rankedData codeUnitCompare [headerCopy; sampleRow])).
  assert (GET codeUnitCompare sampleFs
          = Normal (successResponse "2024-05-01T10:00:00.000Z"
                      (rankedData codeUnitCompare [headerCopy; sampleRow]))) as Hget
    by reflexivity.
  destruct (C8_success_payload codeUnitCompare sampleFs _ Hget eq_refl)
    as (Hkeys & _ & Hdata).
  split; [exact Hget |]. split; [exact Hkeys | exact Hdata].
Defined.

(** C6, at an input where it fails. A missing file is answered with the
    error payload and status 500; a file stream that fails after the
    existence check (here: the path is a directory) is not: its ['error']
    event has no listener, the promise the handler awaits never settles,
    and no response is produced. *)
Theorem C6_unhandled_read_error (localeCompare : string -> string -> Z) :
  GET localeCompare missingFs
  = Normal (mkResponse 500 corsHeaders
              (JObject [("success", JBool false);
                        ("message", JString "Error reading leaderboard data.");
                        ("error", JString "CSV file not found at path: /app/abc.csv")]))
  /\ GET localeCompare directoryFs
     = Pending (mkError "EISDIR: illegal operation on a directory, read").
Proof. split; reflexivity. Qed.


(** * Further properties of the handler *)

(** ** The two counts *)

Lemma parseInt_not_number (v : option string) :
  startsNumber v = false -> JsNumber.orZero (JsNumber.parseInt v) = 0.
Proof.
  unfold startsNumber, JsNumber.parseInt.
  destruct v as [s|]; [| intros _; vm_compute; reflexivity].
  cbn [fmap option_fmap option_map].
  destruct (JsString.trimStart s) as [|c r]; [intros _; reflexivity |].
  destruct c as [[] [] [] [] [] [] [] []]; cbn; intros H;
    first [ discriminate H
          | reflexivity
          | destruct r as [|d r']; [reflexivity |]; cbn; rewrite H; reflexivity ].
Qed.

(** X1. A count whose field is absent, empty, or does not read as a number
    is 0. *)
Theorem count_defaults_to_zero (item : Row) :
  (startsNumber (item !! badgesLabel) = false -> skillBadges (processItem item) = 0)
  /\ (startsNumber (item !! arcadeLabel) = false -> arcadePoints (processItem item) = 0).
Proof.
  split; intros H; cbn [processItem skillBadges arcadePoints];
    by apply parseInt_not_number.
Qed.

Lemma count_defaults_to_zero_witness :
  skillBadges (processItem (row [(nameLabel, "Asha"); (arcadeLabel, "n/a")])) = 0
  /\ arcadePoints (processItem (row [(nameLabel, "Asha"); (arcadeLabel, "n/a")])) = 0.
Proof.
  split.
  - apply (proj1 (count_defaults_to_zero _)). vm_compute. reflexivity.
  - apply (proj2 (count_defaults_to_zero _)). vm_compute. reflexivity.
Defined.

Lemma trimStart_app (s t : string) :
  JsString.trimStart s <> "" ->
  JsString.trimStart (s +:+ t) = JsString.trimStart s +:+ t.
Proof.
  induction s as [|c r IH]; simpl; intros H; [congruence |].
  rewrite ?append_String. simpl.
  destruct (JsString.isWhiteSpace c); [by apply IH | reflexivity].
Qed.

Lemma readDigits_stop (u rest : string) (c : ascii) (acc : Z) :
  JsString.isDigit c = false ->
  JsNumber.readDigits (u +:+ String c rest) true acc = JsNumber.readDigits u true acc.
Proof.
  intros Hc. revert acc. induction u as [|d u IH]; intros acc.
  - rewrite append_empty. simpl. rewrite Hc. reflexivity.
  - rewrite ?append_String. simpl.
    destruct (JsString.isDigit d); [apply IH | reflexivity].
Qed.

Lemma readDigits_start_stop (u rest : string) (c : ascii) :
  match u with String d _ => JsString.isDigit d | EmptyString => false end = true ->
  JsString.isDigit c = false ->
  JsNumber.readDigits (u +:+ String c rest) false 0 = JsNumber.readDigits u false 0.
Proof.
  destruct u as [|d u]; [discriminate |]. intros Hd Hc.
  rewrite ?append_String. simpl. rewrite Hd. by apply readDigits_stop.
Qed.

Lemma parseInt_suffix (s rest : string) (c : ascii) :
  startsNumber (Some s) = true -> JsString.isDigit c = false ->
  JsNumber.parseInt (Some (s +:+ String c rest)) = JsNumber.parseInt (Some s).
Proof.
  unfold startsNumber, JsNumber.parseInt. cbn [fmap option_fmap option_map].
  intros Hs Hc. rewrite trimStart_app by (intros E; rewrite E in Hs; discriminate).
  destruct (JsString.trimStart s) as [|x r]; [discriminate |].
  rewrite ?append_String.
  destruct x as [[] [] [] [] [] [] [] []]; cbn in Hs; try discriminate Hs;
    first [ f_equal; by apply readDigits_start_stop
          | by apply readDigits_start_stop
          | by apply (readDigits_start_stop (String _ r)) ].
Qed.

(** X2. Text after the number does not count: a field that reads as a
    number gives the same count when anything that starts with a non-digit
    is appended to it. *)
Theorem count_ignores_suffix (item : Row) (s rest : string) (c : ascii) :
  startsNumber (Some s) = true ->
  JsString.isDigit c = false ->
  (item !! badgesLabel = Some s ->
   skillBadges (processItem (<[badgesLabel := s +:+ String c rest]> item))
   = skillBadges (processItem item))
  /\ (item !! arcadeLabel = Some s ->
      arcadePoints (processItem (<[arcadeLabel := s +:+ String c rest]> item))
      = arcadePoints (processItem item)).
Proof.
  intros Hs Hc. unfold badgesLabel, arcadeLabel.
  split; intros Hitem; cbn [processItem skillBadges arcadePoints];
    rewrite lookup_insert_eq, Hitem; f_equal; by apply parseInt_suffix.
Qed.

Lemma count_ignores_suffix_witness :
  skillBadges (processItem (<[badgesLabel := " 7" +:+ String "." "5 of 19"]> sampleRow))
  = skillBadges (processItem (<[badgesLabel := " 7"]> sampleRow)).
Proof.
  pose proof (count_ignores_suffix (<[badgesLabel := " 7"]> sampleRow) " 7" "5 of 19" "."
                eq_refl eq_refl) as [H _].
  rewrite <- H by (vm_compute; reflexivity).
  vm_compute. reflexivity.
Defined.

(** ** The display strings *)

Lemma readDigits_uint_acc (d : Decimal.uint) (rest : string) (acc : positive) :
  JsNumber.readDigits (NilEmpty.string_of_uint d +:+ rest) true (Z.pos acc)
  = JsNumber.readDigits rest true (Z.pos (Pos.of_uint_acc d acc)).
Proof.
  revert acc. induction d as [|d IH|d IH|d IH|d IH|d IH|d IH|d IH|d IH|d IH|d IH];
    intros acc; cbn [NilEmpty.string_of_uint Pos.of_uint_acc];
    rewrite ?append_String, ?append_empty; [reflexivity | ..];
    cbn [JsNumber.readDigits];
    match goal with
    | |- context [JsString.isDigit ?c] =>
        change (JsString.isDigit c) with true; cbn iota
    end;
    rewrite <- IH; f_equal; unfold JsString.digitValue; cbn; lia.
Qed.

Lemma readDigits_uint (d : Decimal.uint) (rest : string) :
  JsNumber.readDigits (NilEmpty.string_of_uint d +:+ rest) true 0
  = JsNumber.readDigits rest true (Z.of_N (Pos.of_uint d)).
Proof.
  induction d as [|d IH|d IH|d IH|d IH|d IH|d IH|d IH|d IH|d IH|d IH];
    cbn [NilEmpty.string_of_uint Pos.of_uint];
    rewrite ?append_String, ?append_empty; [reflexivity | ..];
    cbn [JsNumber.readDigits];
    match goal with
    | |- context [JsString.isDigit ?c] =>
        change (JsString.isDigit c) with true; cbn iota
    end;
    first [ exact IH | apply readDigits_uint_acc ].
Qed.

Lemma readDigits_uint_start (d : Decimal.uint) (rest : string) :
  d <> Decimal.Nil ->
  JsNumber.readDigits (NilEmpty.string_of_uint d +:+ rest) false 0
  = JsNumber.readDigits (NilEmpty.string_of_uint d +:+ rest) true 0.
Proof.
  destruct d; [congruence | ..]; intros _;
    cbn [NilEmpty.string_of_uint]; rewrite ?append_String; reflexivity.
Qed.

Lemma trimStart_uint (d : Decimal.uint) (rest : string) :
  d <> Decimal.Nil ->
  JsString.trimStart (NilEmpty.string_of_uint d +:+ rest)
  = NilEmpty.string_of_uint d +:+ rest.
Proof.
  destruct d; [congruence | ..]; intros _;
    cbn [NilEmpty.string_of_uint]; rewrite ?append_String; reflexivity.
Qed.

(** The decimal form of a number, followed by text that does not go on
    with a digit, parses back to the number. *)
Lemma parseInt_ofNumber (n : Z) (rest : string) :
  match rest with String c _ => JsString.isDigit c | EmptyString => false end = false ->
  JsNumber.orZero (JsNumber.parseInt (Some (JsString.ofNumber n +:+ rest))) = n.
Proof.
  intros Hrest.
  assert (forall v, JsNumber.readDigits rest true v = JsNumber.Num v) as Hstop.
  { intros v. destruct rest as [|c r]; simpl; [reflexivity |]. by rewrite Hrest. }
  unfold JsString.ofNumber, JsNumber.parseInt. destruct n as [|p|p]; cbn [Z.to_int].
  - unfold NilZero.string_of_int, NilZero.string_of_uint.
    cbn [NilEmpty.string_of_uint]. rewrite ?append_String, ?append_empty.
    change (JsString.trimStart (String "0" rest)) with (String "0" rest).
    cbn iota. cbn [JsNumber.readDigits].
    change (JsString.isDigit "0") with true. cbn iota.
    rewrite Hstop. reflexivity.
  - pose proof (DecimalPos.Unsigned.to_uint_nonnil p) as Hnil.
    unfold NilZero.string_of_int, NilZero.string_of_uint.
    replace (match Pos.to_uint p with
             | Decimal.Nil => "0"
             | _ => NilEmpty.string_of_uint (Pos.to_uint p)
             end) with (NilEmpty.string_of_uint (Pos.to_uint p))
      by (destruct (Pos.to_uint p); congruence).
    rewrite trimStart_uint by exact Hnil.
    assert (JsNumber.readDigits (NilEmpty.string_of_uint (Pos.to_uint p) +:+ rest) false 0
            = JsNumber.Num (Z.pos p)) as Hread.
    { rewrite readDigits_uint_start by exact Hnil.
      rewrite readDigits_uint, Hstop, DecimalPos.Unsigned.of_to. reflexivity. }
    destruct (Pos.to_uint p) eqn:E; [congruence | ..];
      cbn [NilEmpty.string_of_uint] in *; rewrite ?append_String in *;
      rewrite Hread; reflexivity.
  - pose proof (DecimalPos.Unsigned.to_uint_nonnil p) as Hnil.
    unfold NilZero.string_of_int, NilZero.string_of_uint.
    replace (match Pos.to_uint p with
             | Decimal.Nil => "0"
             | _ => NilEmpty.string_of_uint (Pos.to_uint p)
             end) with (NilEmpty.string_of_uint (Pos.to_uint p))
      by (destruct (Pos.to_uint p); congruence).
    rewrite ?append_String. cbn [JsString.trimStart].
    change (JsString.isWhiteSpace "-") with false. cbn iota.
    rewrite readDigits_uint_start by exact Hnil.
    rewrite readDigits_uint, Hstop, DecimalPos.Unsigned.of_to. reflexivity.
Qed.

(** X3. The display strings are the counts in decimal followed by "/19" and
    "/1", and parsing a display string the way the handler parses a field
    gives the count back. *)
Theorem display_strings_round_trip (item : Row) :
  let e := processItem item in
  skillBadgesStr e = JsString.ofNumber (skillBadges e) +:+ "/19"
  /\ arcadePointsStr e = JsString.ofNumber (arcadePoints e) +:+ "/1"
  /\ JsNumber.orZero (JsNumber.parseInt (Some (skillBadgesStr e))) = skillBadges e
  /\ JsNumber.orZero (JsNumber.parseInt (Some (arcadePointsStr e))) = arcadePoints e.
Proof.
  cbn zeta. cbn [processItem skillBadgesStr arcadePointsStr skillBadges arcadePoints].
  split; [reflexivity |]. split; [reflexivity |].
  split; apply parseInt_ofNumber; reflexivity.
Qed.

(** ** Progress, status and name *)

(** X4. Progress is five points per completed course: it is 5 times the
    sum of the two counts while that sum is at most 20, it is 100 exactly
    from 20 courses on, and it never decreases when a count grows. *)
Theorem progress_five_per_course (item item' : Row) :
  let e := processItem item in
  let e' := processItem item' in
  (skillBadges e + arcadePoints e <= 20 ->
   progress e = 5 * (skillBadges e + arcadePoints e))
  /\ (progress e = 100 <-> 20 <= skillBadges e + arcadePoints e)
  /\ (skillBadges e + arcadePoints e <= skillBadges e' + arcadePoints e' ->
      progress e <= progress e').
Proof.
  cbn zeta. cbn [processItem progress skillBadges arcadePoints].
  rewrite !progressOf_eq. lia.
Qed.

Lemma progress_five_per_course_witness :
  progress (processItem sampleRow) = 5 * (7 + 1)
  /\ progress (processItem sampleRow)
     <= progress (processItem (participant "Dev" "yes" "12" "0")).
Proof.
  pose proof (progress_five_per_course sampleRow (participant "Dev" "yes" "12" "0"))
    as (Hlow & _ & Hmono).
  split.
  - apply Hlow. vm_compute. discriminate.
  - apply Hmono. vm_compute. discriminate.
Defined.

(** X5. The status fields that count as redeemed are exactly the eight
    spellings of "yes" with white space before and after. *)
Theorem redeemed_iff_yes_spelling (item : Row) :
  redemptionStatus (processItem item) = true <->
  exists before yes after,
    item !! statusLabel = Some (before +:+ yes +:+ after)
    /\ yes ∈ yesSpellings /\ blank before /\ blank after.
Proof.
  unfold statusLabel, yesSpellings, blank. cbn [processItem redemptionStatus]. split.
  - destruct (item !! _) as [s|]; [| discriminate].
    intros H. destruct (isRedeemed_shape s H) as (before & yes & after & -> & Hrest).
    exists before, yes, after. by split.
  - intros (before & yes & after & -> & Hyes & Hbefore & Hafter).
    by apply isRedeemed_spelling.
Qed.

Lemma processItem_agree (item item' : Row) :
  (forall label, label ∈ readColumns -> item !! label = item' !! label) ->
  processItem item = processItem item'.
Proof.
  intros H.
  pose proof (H nameLabel ltac:(unfold readColumns; set_solver)) as Hname.
  pose proof (H statusLabel ltac:(unfold readColumns; set_solver)) as Hstatus.
  pose proof (H badgesLabel ltac:(unfold readColumns; set_solver)) as Hbadges.
  pose proof (H arcadeLabel ltac:(unfold readColumns; set_solver)) as Harcade.
  unfold nameLabel, statusLabel, badgesLabel, arcadeLabel in *.
  unfold processItem. rewrite Hname, Hstatus, Hbadges, Harcade. reflexivity.
Qed.

(** X6. An entry depends on the four columns the handler reads and on
    nothing else in the row. *)
Theorem processItem_reads_four_columns (item item' : Row) :
  (forall label, label ∈ readColumns -> item !! label = item' !! label) ->
  processItem item = processItem item'.
Proof. apply processItem_agree. Qed.

Lemma processItem_reads_four_columns_witness :
  processItem (<["Institution" := "Hill College"]> sampleRow) = processItem sampleRow.
Proof.
  apply processItem_reads_four_columns. intros label Hlabel.
  apply lookup_insert_ne. intros <-.
  unfold readColumns in Hlabel.
  repeat (apply elem_of_cons in Hlabel as [Hlabel | Hlabel]; [discriminate Hlabel |]).
  by apply elem_of_nil in Hlabel.
Defined.

(** X7. No entry has an empty name, so the fallback to the empty string in
    the comparator never applies to an entry of the handler. *)
Theorem entry_name_not_empty (item : Row) :
  name (processItem item) <> ""
  /\ JsString.orElse (Some (name (processItem item))) "" = name (processItem item).
Proof.
  split; [| apply orElse_Some_empty].
  cbn [processItem name]. destruct (item !! "User Name") as [[|c r]|]; simpl; discriminate.
Qed.

(** ** The order of the returned array *)

Section OrderFacts.

Context {A : Type} (cmp : A -> A -> Z).

Lemma sort_ordered_id (l : list A) :
  StronglySorted (before cmp) l -> JsArray.sort cmp l = l.
Proof.
  induction 1 as [|x l Hl IH Hall]; simpl; [reflexivity |].
  rewrite IH. destruct l as [|y ys]; simpl; [reflexivity |].
  apply Forall_cons in Hall as [Hxy _]. unfold before in Hxy.
  destruct (Z.leb_spec (cmp x y) 0); [reflexivity | lia].
Qed.

Hypothesis Hcmp : Consistent cmp.

Lemma noTwoTie_class_short (l : list A) (x : A) :
  noTwoTie cmp l -> (length (filter (fun y => tied cmp x y = true) l) <= 1)%nat.
Proof.
  induction l as [|a l IH]; simpl; [lia |]. intros [Ha Hl].
  rewrite filter_cons. destruct (decide (tied cmp x a = true)) as [Hxa | _]; [| by apply IH].
  destruct (filter (fun y => tied cmp x y = true) l) as [|b t] eqn:E; [simpl; lia |].
  exfalso.
  assert (b ∈ filter (fun y => tied cmp x y = true) l) as Hb
    by (rewrite E; apply list_elem_of_here).
  apply list_elem_of_filter in Hb as [Hxb Hin].
  rewrite Forall_forall in Ha. apply (Ha b Hin).
  unfold tied in *. apply Z.eqb_eq in Hxa, Hxb.
  exact (cmp_eq_trans cmp Hcmp a x b (cmp_sym cmp Hcmp x a Hxa) Hxb).
Qed.

Lemma Permutation_short (l1 l2 : list A) :
  Permutation l1 l2 -> (length l1 <= 1)%nat -> l1 = l2.
Proof.
  intros Hperm Hlen. destruct l1 as [|a [|b l1]]; simpl in Hlen; [| | lia].
  - symmetry. by apply Permutation_nil.
  - symmetry. by apply Permutation_length_1_inv.
Qed.

(** Arrays that hold the same entries, no two of which tie, sort to the
    same array. *)
Lemma sort_Permutation_eq (l1 l2 : list A) :
  Permutation l1 l2 -> noTwoTie cmp l1 -> JsArray.sort cmp l1 = JsArray.sort cmp l2.
Proof.
  intros Hperm Hties. symmetry.
  apply (sort_unique cmp Hcmp); [by apply sort_sorted |].
  intros x. rewrite (sort_stable cmp Hcmp). symmetry.
  apply Permutation_short; [| by apply noTwoTie_class_short].
  by apply filter_Permutation.
Qed.

End OrderFacts.

Lemma ordered_prefix {A : Type} (P : A -> bool) (l : list A) :
  (forall i j a b, (i < j)%nat -> l !! i = Some a -> l !! j = Some b ->
                   P b = true -> P a = true) ->
  l = (filter (fun x => P x = true) l ++ filter (fun x => P x = false) l)%list.
Proof.
  induction l as [|a l IH]; intros Hord; [reflexivity |].
  assert (l = (filter (fun x => P x = true) l ++ filter (fun x => P x = false) l)%list)
    as Hl.
  { apply IH. intros i j x y Hij Hx Hy. apply (Hord (S i) (S j)); [lia | done | done]. }
  rewrite !filter_cons. destruct (P a) eqn:Ha.
  - rewrite decide_True, decide_False by done. simpl. by f_equal.
  - rewrite decide_False, decide_True by done.
    destruct (filter (fun x => P x = true) l) as [|b t] eqn:E.
    + simpl in *. by f_equal.
    + exfalso.
      assert (b ∈ filter (fun x => P x = true) l) as Hb
        by (rewrite E; apply list_elem_of_here).
      apply list_elem_of_filter in Hb as [Hpb Hin].
      apply list_elem_of_lookup in Hin as [j Hj].
      specialize (Hord 0%nat (S j) a b ltac:(lia) eq_refl Hj Hpb). congruence.
Qed.

Lemma removeHeaderRow_length (results : list Row) :
  (length results - 1 <= length (removeHeaderRow results) <= length results)%nat.
Proof.
  destruct results as [|first rest]; simpl; [lia |].
  destruct (bool_decide _); simpl; lia.
Qed.

Lemma rankedData_redeemed_first (localeCompare : string -> string -> Z)
    (results : list Row) (i j : nat) (a b : LeaderboardEntry) :
  Consistent localeCompare -> (i < j)%nat ->
  rankedData localeCompare results !! i = Some a ->
  rankedData localeCompare results !! j = Some b ->
  redemptionStatus b = true -> redemptionStatus a = true.
Proof.
  intros Hlc Hij Ha Hb. rewrite rankedData_lookup in Ha, Hb.
  destruct (sortedData localeCompare results !! i) as [a'|] eqn:Ea; [| discriminate].
  destruct (sortedData localeCompare results !! j) as [b'|] eqn:Eb; [| discriminate].
  injection Ha as <-. injection Hb as <-.
  pose proof (compareEntries_consistent localeCompare Hlc) as Hcmp.
  pose proof (sorted_lookup _ _ i j a' b' (sort_sorted _ Hcmp _) Hij Ea Eb) as Hle.
  exact (proj1 (compareEntries_le localeCompare a' b' Hle)).
Qed.

(** X8. The returned array holds the processed rows, each once, whatever
    their order: ranks aside it is a rearrangement of them, and its length
    is the number of parsed rows, less one when the first row is taken for
    the header. *)
Theorem data_rearranges_rows (localeCompare : string -> string -> Z)
    (results : list Row) :
  Permutation (map unranked (rankedData localeCompare results)) (processedData results)
  /\ length (rankedData localeCompare results) = length (removeHeaderRow results)
  /\ (length results - 1 <= length (rankedData localeCompare results)
      <= length results)%nat.
Proof.
  assert (length (rankedData localeCompare results) = length (removeHeaderRow results))
    as Hlen.
  { rewrite rankedData_length. unfold sortedData, processedData.
    rewrite (Permutation_length (sort_Permutation _ _)). apply length_map. }
  split; [| split; [exact Hlen |]].
  - rewrite rankedData_unranked. apply sort_Permutation.
  - rewrite Hlen. apply removeHeaderRow_length.
Qed.

(** X9. Rows that already stand in leaderboard order are returned in the
    order of the file. *)
Theorem ordered_rows_keep_file_order (localeCompare : string -> string -> Z)
    (results : list Row) :
  StronglySorted (before (compareEntries localeCompare)) (processedData results) ->
  map unranked (rankedData localeCompare results) = processedData results.
Proof.
  intros Hsorted. rewrite rankedData_unranked. by apply sort_ordered_id.
Qed.

Lemma ordered_rows_keep_file_order_witness :
  map name (rankedData caseInsensitiveCompare orderedResults)
  = ["Dev"; "asha"; "Chen"; "Bala"].
Proof.
  assert (map unranked (rankedData caseInsensitiveCompare orderedResults)
          = processedData orderedResults) as H.
  { apply ordered_rows_keep_file_order.
    repeat constructor; vm_compute; discriminate. }
  apply (f_equal (map name)) in H. rewrite map_map in H. exact H.
Defined.

(** X10. When no two entries tie, the returned array does not depend on
    the order of the rows in the file. *)
Theorem row_order_is_immaterial (localeCompare : string -> string -> Z)
    (results results' : list Row) :
  Consistent localeCompare ->
  Permutation (removeHeaderRow results) (removeHeaderRow results') ->
  noTwoTie (compareEntries localeCompare) (processedData results) ->
  rankedData localeCompare results = rankedData localeCompare results'.
Proof.
  intros Hlc Hperm Hties. unfold rankedData, sortedData. f_equal.
  apply sort_Permutation_eq; [by apply compareEntries_consistent | | exact Hties].
  unfold processedData. by apply Permutation_map.
Qed.

Lemma row_order_is_immaterial_witness :
  rankedData caseInsensitiveCompare
    [headerCopy; participant "Bala" "No" "9" "1"; participant "Dev" "yes" "12" "0"]
  = rankedData caseInsensitiveCompare
      [headerCopy; participant "Dev" "yes" "12" "0"; participant "Bala" "No" "9" "1"].
Proof.
  apply row_order_is_immaterial.
  - exact caseInsensitiveCompare_consistent.
  - rewrite !removeHeaderRow_cons, !bool_decide_eq_true_2 by (vm_compute; reflexivity).
    apply perm_swap.
  - unfold processedData.
    rewrite removeHeaderRow_cons, bool_decide_eq_true_2 by (vm_compute; reflexivity).
    simpl. repeat constructor. vm_compute. discriminate.
Defined.

(** X11. The callback given to [sort] is a consistent comparison function
    whenever [localeCompare] is one: exchanging its arguments reverses the
    sign of its result, and each of the three outcomes is transitive. *)
Theorem compareEntries_is_consistent (localeCompare : string -> string -> Z) :
  Consistent localeCompare ->
  Consistent (compareEntries localeCompare)
  /\ forall a b, Z.sgn (compareEntries localeCompare b a)
                 = - Z.sgn (compareEntries localeCompare a b).
Proof.
  intros Hlc. pose proof (compareEntries_consistent localeCompare Hlc) as Hcmp.
  split; [exact Hcmp |]. intros a b.
  destruct (Z.lt_trichotomy (compareEntries localeCompare a b) 0) as [H | [H | H]].
  - pose proof (cmp_lt_gt _ Hcmp a b H). lia.
  - pose proof (cmp_sym _ Hcmp a b H). lia.
  - pose proof (cmp_gt_lt _ Hcmp a b ltac:(lia)). lia.
Qed.

Lemma compareEntries_is_consistent_witness :
  Z.sgn (compareEntries caseInsensitiveCompare
           (processItem sampleRow) (processItem (participant "Dev" "yes" "12" "0")))
  = - Z.sgn (compareEntries caseInsensitiveCompare
               (processItem (participant "Dev" "yes" "12" "0")) (processItem sampleRow)).
Proof.
  apply (proj2 (compareEntries_is_consistent caseInsensitiveCompare
                  caseInsensitiveCompare_consistent)).
Defined.

(** X12. The order of the returned array is fixed by the comparator alone:
    an arrangement of the processed rows that is ordered by the comparator
    and keeps tied entries in file order is the handler's arrangement. *)
Theorem sorted_order_is_unique (localeCompare : string -> string -> Z)
    (results : list Row) (out : list LeaderboardEntry) :
  Consistent localeCompare ->
  StronglySorted (before (compareEntries localeCompare)) out ->
  (forall x, filter (fun y => tied (compareEntries localeCompare) x y = true) out
             = filter (fun y => tied (compareEntries localeCompare) x y = true)
                      (processedData results)) ->
  out = sortedData localeCompare results.
Proof.
  intros Hlc Hsorted Hstable.
  apply (sort_unique _ (compareEntries_consistent localeCompare Hlc)); assumption.
Qed.

Lemma sorted_order_is_unique_witness :
  processedData orderedResults = sortedData caseInsensitiveCompare orderedResults.
Proof.
  apply sorted_order_is_unique.
  - exact caseInsensitiveCompare_consistent.
  - repeat constructor; vm_compute; discriminate.
  - intros x. reflexivity.
Defined.

(** X13. The redeemed entries come first: the returned array is its
    redeemed entries followed by its other entries. *)
Theorem redeemed_entries_come_first (localeCompare : string -> string -> Z)
    (results : list Row) :
  Consistent localeCompare ->
  rankedData localeCompare results
  = (filter (fun e => redemptionStatus e = true) (rankedData localeCompare results)
     ++ filter (fun e => redemptionStatus e = false) (rankedData localeCompare results))%list.
Proof.
  intros Hlc. apply ordered_prefix. intros i j a b.
  by apply rankedData_redeemed_first.
Qed.

Lemma redeemed_entries_come_first_witness :
  rankedData caseInsensitiveCompare sampleResults
  = (filter (fun e => redemptionStatus e = true)
       (rankedData caseInsensitiveCompare sampleResults)
     ++ filter (fun e => redemptionStatus e = false)
          (rankedData caseInsensitiveCompare sampleResults))%list.
Proof.
  exact (redeemed_entries_come_first caseInsensitiveCompare sampleResults
           caseInsensitiveCompare_consistent).
Defined.

(** ** The responses of the two handlers *)

(** X14. The status code and the [success] flag of a response agree: a
    response is the success payload with status 200, or the error payload,
    with exactly the fields success, message and error, with status 500. *)
Theorem status_agrees_with_success_flag (localeCompare : string -> string -> Z)
    (fs : FileSystem) (resp : Response) :
  GET localeCompare fs = Normal resp ->
  (status resp = 200 /\ field "success" (body resp) = Some (JBool true)
   /\ keys (body resp) = payloadKeys)
  \/ (status resp = 500 /\ field "success" (body resp) = Some (JBool false)
      /\ keys (body resp) = ["success"; "message"; "error"]
      /\ field "message" (body resp) = Some (JString "Error reading leaderboard data.")).
Proof.
  intros Hget.
  assert (existsSync fs = true -> forall e, stream fs <> ErrorOn ReadStream e) as Hread.
  { intros Hex e Hs. rewrite (GET_read_error _ fs e Hex Hs) in Hget. discriminate. }
  destruct (GET_responds localeCompare fs Hread) as (resp' & Hget' & Hshape).
  rewrite Hget in Hget'. injection Hget' as <-.
  destruct Hshape as [(_ & mtime & rows & ->) | (_ & e & ->)].
  - left. repeat split; reflexivity.
  - right. repeat split; reflexivity.
Qed.

Lemma status_agrees_with_success_flag_witness :
  status (errorResponse (mkError "CSV file not found at path: /app/abc.csv")) = 500.
Proof.
  destruct (status_agrees_with_success_flag codeUnitCompare missingFs _ eq_refl)
    as [(H200 & _) | (H500 & _)]; [discriminate H200 | exact H500].
Defined.

(** X15. Every response carries the three CORS headers, the same for the
    success payload, the error payload and the answer to OPTIONS, which has
    status 204 and no body. *)
Theorem every_response_has_cors_headers (localeCompare : string -> string -> Z)
    (fs : FileSystem) (resp : Response) :
  GET localeCompare fs = Normal resp ->
  headers resp = headers OPTIONS
  /\ ("Access-Control-Allow-Origin", "*") ∈ headers resp
  /\ status OPTIONS = 204 /\ body OPTIONS = JNull.
Proof.
  intros Hget.
  assert (existsSync fs = true -> forall e, stream fs <> ErrorOn ReadStream e) as Hread.
  { intros Hex e Hs. rewrite (GET_read_error _ fs e Hex Hs) in Hget. discriminate. }
  destruct (GET_responds localeCompare fs Hread) as (resp' & Hget' & Hshape).
  rewrite Hget in Hget'. injection Hget' as <-.
  destruct Hshape as [(_ & mtime & rows & ->) | (_ & e & ->)];
    (split; [reflexivity |]); (split; [| split; reflexivity]);
    simpl; unfold corsHeaders; set_solver.
Qed.

Lemma every_response_has_cors_headers_witness :
  headers (errorResponse (mkError "CSV file not found at path: /app/abc.csv"))
  = headers OPTIONS.
Proof.
  exact (proj1 (every_response_has_cors_headers codeUnitCompare missingFs _ eq_refl)).
Defined.

(** X16. No exception leaves the handler, and what the error payload
    reports is the message of the failure: the missing path, the parser's
    error, or the error of [statSync]. *)
Theorem errors_are_reported_inside_payload (localeCompare : string -> string -> Z)
    (fs : FileSystem) :
  (forall e, GET localeCompare fs <> Throw e)
  /\ (forall resp, GET localeCompare fs = Normal resp -> status resp = 500 ->
      exists msg,
        field "error" (body resp) = Some (JString msg)
        /\ ((existsSync fs = false
             /\ msg = "CSV file not found at path: " +:+ filePath fs)
            \/ (existsSync fs = true
                /\ stream fs = ErrorOn CsvStream (mkError msg))
            \/ (existsSync fs = true
                /\ (exists rows, stream fs = Ended rows)
                /\ statSync fs = inl (mkError msg)))).
Proof.
  unfold GET, readRows, stat.
  destruct (existsSync fs) eqn:Hex; simpl.
  - destruct (stream fs) as [rows | [] [msg]] eqn:Hs; simpl.
    + destruct (statSync fs) as [[msg] | mtime] eqn:Hst; simpl.
      * split; [discriminate |]. intros resp [= <-] _. exists msg.
        split; [reflexivity |]. right. right. eauto.
      * split; [discriminate |]. intros resp [= <-] H. discriminate H.
    + split; [discriminate |]. intros resp H. discriminate H.
    + split; [discriminate |]. intros resp [= <-] _. exists msg.
      split; [reflexivity |]. right. left. eauto.
  - split; [discriminate |]. intros resp [= <-] _. eexists.
    split; [reflexivity |]. left. eauto.
Qed.

Lemma errors_are_reported_inside_payload_witness :
  exists msg,
    field "error" (body (errorResponse (mkError "CSV file not found at path: /app/abc.csv")))
    = Some (JString msg).
Proof.
  destruct (proj2 (errors_are_reported_inside_payload codeUnitCompare missingFs)
              _ eq_refl eq_refl) as (msg & Hmsg & _).
  exists msg. exact Hmsg.
Defined.

(** X17. The handler answers nothing only when the file stream itself
    fails: the awaited promise stays pending exactly when the file exists
    and its read stream emits an error. *)
Theorem pending_iff_read_stream_error (localeCompare : string -> string -> Z)
    (fs : FileSystem) (e : Error) :
  GET localeCompare fs = Pending e
  <-> existsSync fs = true /\ stream fs = ErrorOn ReadStream e.
Proof.
  split.
  - unfold GET, readRows, stat.
    destruct (existsSync fs); simpl; [| discriminate].
    destruct (stream fs) as [rows | [] e']; simpl.
    + destruct (statSync fs); simpl; discriminate.
    + intros [= ->]. by split.
    + discriminate.
  - intros [Hex Hs]. by apply GET_read_error.
Qed.

(** X18. A file without data rows, empty or holding only the row taken for
    the header, is answered with status 200, the time stamp of the file and
    an empty data array. *)
Theorem no_rows_give_empty_data (localeCompare : string -> string -> Z)
    (fs : FileSystem) (rows : list Row) (mtime : string) :
  existsSync fs = true -> stream fs = Ended rows -> statSync fs = inr mtime ->
  removeHeaderRow rows = [] ->
  exists resp,
    GET localeCompare fs = Normal resp
    /\ status resp = 200
    /\ field "updatedAt" (body resp) = Some (JString mtime)
    /\ field "data" (body resp) = Some (JArray []).
Proof.
  intros Hex Hs Hst Hrows. eexists. split; [by eapply GET_success |].
  unfold rankedData, sortedData, processedData. rewrite Hrows.
  repeat split; reflexivity.
Qed.

Lemma no_rows_give_empty_data_witness :
  exists resp,
    GET codeUnitCompare
      (mkFileSystem "/app/abc.csv" true (Ended [headerCopy]) (inr "2024-05-01T10:00:00.000Z"))
    = Normal resp
    /\ status resp = 200
    /\ field "updatedAt" (body resp) = Some (JString "2024-05-01T10:00:00.000Z")
    /\ field "data" (body resp) = Some (JArray []).
Proof.
  apply (no_rows_give_empty_data codeUnitCompare _ [headerCopy]); reflexivity.
Defined.

(** X19. Only the first row is ever taken for the header: the rows after
    it are all processed, and a second copy of the header line becomes an
    entry named "User Name" with both counts 0 and no redemption. *)
Theorem only_first_row_can_be_header (first second : Row) (rest : list Row) :
  (exists kept, removeHeaderRow (first :: rest) = (kept ++ rest)%list
                /\ (kept = [] \/ kept = [first]))
  /\ (first !! nameLabel = Some "User Name" ->
      repeatsHeaderLabels second ->
      (forall label, label ∈ readColumns -> is_Some (second !! label)) ->
      processedData (first :: second :: rest)
      = mkEntry "User Name" false 0 0 0 "0/19" "0/1" None :: map processItem rest).
Proof.
  split.
  - rewrite removeHeaderRow_cons. destruct (bool_decide _).
    + exists []. split; [reflexivity | by left].
    + exists [first]. split; [reflexivity | by right].
  - intros Hfirst Hrep Hdom. unfold processedData.
    rewrite removeHeaderRow_cons, bool_decide_eq_true_2 by exact Hfirst.
    simpl. f_equal.
    assert (forall label, label ∈ readColumns -> second !! label = Some label) as Hcell.
    { intros label Hin. destruct (Hdom label Hin) as [cell Hc].
      rewrite Hc. f_equal. exact (Hrep label cell Hc). }
    rewrite (processItem_agree second headerCopy); [reflexivity |].
    intros label Hin. rewrite (Hcell label Hin).
    unfold readColumns in Hin.
    repeat (apply elem_of_cons in Hin as [-> | Hin]; [reflexivity |]).
    by apply elem_of_nil in Hin.
Qed.

Lemma only_first_row_can_be_header_witness :
  processedData [headerCopy; headerCopy; sampleRow]
  = [mkEntry "User Name" false 0 0 0 "0/19" "0/1" None; processItem sampleRow].
Proof.
  apply (proj2 (only_first_row_can_be_header headerCopy headerCopy [sampleRow])).
  - reflexivity.
  - intros label cell Hcell.
    apply (elem_of_list_to_map_2 (M := gmap string)) in Hcell.
    repeat (apply elem_of_cons in Hcell as [[= -> ->] | Hcell]; [reflexivity |]).
    by apply elem_of_nil in Hcell.
  - intros label Hin. unfold readColumns in Hin.
    repeat (apply elem_of_cons in Hin as [-> | Hin]; [by eexists |]).
    by apply elem_of_nil in Hin.
Defined.

(** X20. No two entries share a rank, tied or not, and every rank lies
    between 1 and the number of entries. *)
Theorem ranks_are_distinct (localeCompare : string -> string -> Z)
    (results : list Row) :
  NoDup (map rank (rankedData localeCompare results))
  /\ Forall (fun e => exists r, rank e = Some r
                       /\ 1 <= r <= Z.of_nat (length (rankedData localeCompare results)))
            (rankedData localeCompare results).
Proof.
  split.
  - rewrite rankedData_ranks. unfold positions. rewrite map_map.
    apply NoDup_fmap_2; [| apply NoDup_seq].
    intros i j [= H]. lia.
  - apply Forall_lookup. intros i e He.
    pose proof (lookup_lt_Some _ _ _ He) as Hi.
    rewrite rankedData_lookup in He.
    destruct (sortedData localeCompare results !! i); [| discriminate].
    injection He as <-. eexists. split; [reflexivity |]. lia.
Qed.
